(** * Complaint classifier ([trained_models/standalone_ml.py]): shallow embedding

    [StandaloneMLService] is embedded as pure functions over an explicit
    service record.  Python [str] values are modelled as [string], i.e.
    sequences of 8-bit code points (the Latin-1 range of Unicode); Python
    [dict] values are modelled as association lists in insertion order,
    because [max(d, key=d.get)] and [sorted(d.items(), ...)] observe that
    order.  Scores are rationals: the code mixes [int] and the float [0.5],
    and every score is a small multiple of one half, where float arithmetic
    is exact. *)

From Stdlib Require Import String Ascii List Bool Arith ZArith QArith Lia.
From Stdlib Require Import Permutation Sorted.
Import ListNotations.

Close Scope Q_scope.
Open Scope string_scope.
Open Scope list_scope.
Open Scope nat_scope.

(** ** Python string primitives *)

Module PyStr.

(** [c.isspace()] on the Latin-1 range; this is also what [\s] matches and
    what [str.split()] / [str.strip()] treat as separators. *)
Definition isspace (c : ascii) : bool :=
  let n := nat_of_ascii c in
  ((9 <=? n) && (n <=? 13)) || ((28 <=? n) && (n <=? 32))
  || (n =? 133) || (n =? 160).

Definition is_upper_ascii (c : ascii) : bool :=
  let n := nat_of_ascii c in (65 <=? n) && (n <=? 90).

Definition is_lower_ascii (c : ascii) : bool :=
  let n := nat_of_ascii c in (97 <=? n) && (n <=? 122).

Definition is_digit_ascii (c : ascii) : bool :=
  let n := nat_of_ascii c in (48 <=? n) && (n <=? 57).

(** Upper-case letters of the Latin-1 supplement (all of 0xC0..0xDE but the
    multiplication sign 0xD7). *)
Definition is_upper_latin1 (c : ascii) : bool :=
  let n := nat_of_ascii c in (192 <=? n) && (n <=? 222) && negb (n =? 215).

Definition lower_char (c : ascii) : ascii :=
  if is_upper_ascii c || is_upper_latin1 c
  then ascii_of_nat (nat_of_ascii c + 32)
  else c.

(** [s.lower()] *)
Fixpoint lower (s : string) : string :=
  match s with
  | EmptyString => EmptyString
  | String c r => String (lower_char c) (lower r)
  end.

(** [needle in hay] *)
Fixpoint contains (needle hay : string) : bool :=
  String.prefix needle hay ||
  match hay with
  | EmptyString => false
  | String _ r => contains needle r
  end.

(** [w in l] for a list of strings *)
Definition mem (w : string) (l : list string) : bool :=
  existsb (String.eqb w) l.

(** [any(w in hay for w in needles)] *)
Definition any_in (needles : list string) (hay : string) : bool :=
  existsb (fun w => contains w hay) needles.

Definition flush (tok : string) : list string :=
  match tok with
  | EmptyString => []
  | _ => [tok]
  end.

(** [s.split()]: scan left to right, [tok] is the token read so far. *)
Fixpoint split_from (tok : string) (s : string) : list string :=
  match s with
  | EmptyString => flush tok
  | String c r =>
      if isspace c then flush tok ++ split_from EmptyString r
      else split_from (tok ++ String c EmptyString)%string r
  end.

Definition split (s : string) : list string := split_from EmptyString s.

(** [s.lstrip(chars)], [s.rstrip(chars)] and [s.strip(chars)], with the
    character set given as a predicate. *)
Fixpoint lstrip (p : ascii -> bool) (s : string) : string :=
  match s with
  | EmptyString => EmptyString
  | String c r => if p c then lstrip p r else s
  end.

Fixpoint rstrip (p : ascii -> bool) (s : string) : string :=
  match s with
  | EmptyString => EmptyString
  | String c r =>
      match rstrip p r with
      | EmptyString => if p c then EmptyString else String c EmptyString
      | r' => String c r'
      end
  end.

Definition strip (p : ascii -> bool) (s : string) : string :=
  rstrip p (lstrip p s).

(** [s.split(sep, maxsplit)] for a one-character separator. *)
Fixpoint split_on_from (sep : ascii) (maxsplit : nat) (cur s : string)
  : list string :=
  match s with
  | EmptyString => [cur]
  | String c r =>
      match maxsplit with
      | O => [(cur ++ s)%string]
      | S m =>
          if Ascii.eqb c sep then cur :: split_on_from sep m EmptyString r
          else split_on_from sep maxsplit (cur ++ String c EmptyString)%string r
      end
  end.

Definition split_on (sep : ascii) (maxsplit : nat) (s : string) : list string :=
  split_on_from sep maxsplit EmptyString s.

End PyStr.

(** ** Python dictionaries, in insertion order *)

Module PyDict.

Definition dict (V : Type) : Type := list (string * V).

Definition keys {V} (d : dict V) : list string := map fst d.
Definition values {V} (d : dict V) : list V := map snd d.

(** [d.get(k)] *)
Fixpoint get {V} (k : string) (d : dict V) : option V :=
  match d with
  | [] => None
  | (k', v) :: r => if String.eqb k' k then Some v else get k r
  end.

(** [d.get(k, dflt)] *)
Definition get_default {V} (k : string) (dflt : V) (d : dict V) : V :=
  match get k d with
  | Some v => v
  | None => dflt
  end.

(** [k in d] *)
Definition has_key {V} (k : string) (d : dict V) : bool :=
  match get k d with
  | Some _ => true
  | None => false
  end.

(** [d[k] = v]: an existing key keeps its position, a new key goes last. *)
Fixpoint set {V} (k : string) (v : V) (d : dict V) : dict V :=
  match d with
  | [] => [(k, v)]
  | (k', v') :: r =>
      if String.eqb k' k then (k', v) :: r else (k', v') :: set k v r
  end.

End PyDict.

Import PyStr PyDict.

(** ** The service *)

Record TrainingSample : Type := mkSample {
  query : string;
  category : string;
  priority : string
}.

Record Service : Type := mkService {
  models_loaded : bool;
  training_data : list TrainingSample;
  category_patterns : dict (list string);
  priority_patterns : dict (list string)
}.

(** [re.sub(r'[^a-zA-Z0-9\s]', ' ', text)] rewrites one character at a time. *)
Definition keep_char (c : ascii) : bool :=
  is_lower_ascii c || is_upper_ascii c || is_digit_ascii c || isspace c.

Fixpoint sub_non_alnum (s : string) : string :=
  match s with
  | EmptyString => EmptyString
  | String c r => String (if keep_char c then c else " "%char) (sub_non_alnum r)
  end.

Definition extract_words (text : string) : list string :=
  let text := sub_non_alnum (lower text) in
  filter (fun word => 2 <? String.length word) (split text).

(** *** [setup_default_patterns] *)

Definition default_category_patterns : dict (list string) :=
  [ ("Technical", ["login"; "password"; "portal"; "wifi"; "internet"; "network";
                   "computer"; "laptop"; "software"; "email"; "lms"; "system"]);
    ("Academic", ["grade"; "marks"; "exam"; "attendance"; "lecture"; "class";
                  "assignment"; "certificate"; "transfer"; "timetable";
                  "professor"]);
    ("Hostel/Mess", ["hostel"; "room"; "mess"; "food"; "meal"; "accommodation";
                     "furniture"; "allotment"; "quality"; "dining"]);
    ("Maintenance", ["maintenance"; "repair"; "broken"; "electricity"; "water";
                     "tap"; "elevator"; "cleaning"; "lighting"; "conditioning"]) ].

Definition default_priority_patterns : dict (list string) :=
  [ ("urgent", ["urgent"; "emergency"; "immediately"; "broken"; "not"; "working";
                "critical"]);
    ("high", ["important"; "soon"; "needed"; "missing"; "exam"; "grade";
              "deteriorated"]);
    ("medium", ["moderate"; "normal"; "permission"; "competition"; "week"]);
    ("low", ["later"; "minor"; "simple"; "routine"; "cleaning"; "dim"]) ].

Definition setup_default_patterns (self : Service) : Service :=
  mkService (models_loaded self) (training_data self)
            default_category_patterns default_priority_patterns.

(** *** [load_csv_data] *)

(** What the loader finds at [cmsdata.csv]: no file ([os.path.exists] is
    false), a file whose [open]/[readlines] raises, or the lines read. *)
Inductive CsvFile : Type :=
| CsvMissing
| CsvUnreadable
| CsvLines (lines : list string).

Definition dquote : ascii := "034"%char.
Definition is_dquote (c : ascii) : bool := Ascii.eqb c dquote.

(** Body of the [for line in lines[1:]] loop: [None] when the line is
    skipped, the appended sample otherwise. *)
Definition parse_line (line : string) : option TrainingSample :=
  let parts := split_on ","%char 2 (strip isspace line) in
  match parts with
  | p0 :: p1 :: p2 :: _ =>
      Some (mkSample (strip is_dquote p0) (strip is_dquote p1)
                     (strip is_dquote p2))
  | _ => None
  end.

Definition append_sample (self : Service) (line : string) : Service :=
  match parse_line line with
  | Some item =>
      mkService (models_loaded self) (training_data self ++ [item])
                (category_patterns self) (priority_patterns self)
  | None => self
  end.

Definition load_csv_data (file : CsvFile) (self : Service) : Service :=
  match file with
  | CsvLines lines =>
      let self := fold_left append_sample (tl lines) self in
      mkService true (training_data self)
                (category_patterns self) (priority_patterns self)
  | CsvMissing => setup_default_patterns self
  | CsvUnreadable => setup_default_patterns self
  end.

(** *** [build_patterns] *)

(** [if label not in table: table[label] = {}] *)
Definition ensure_label (label : string) (table : dict (dict nat))
  : dict (dict nat) :=
  if has_key label table then table else set label ([] : dict nat) table.

(** [table[label][word] = table[label].get(word, 0) + 1] *)
Definition count_word (label word : string) (table : dict (dict nat))
  : dict (dict nat) :=
  let words := get_default label ([] : dict nat) table in
  set label (set word (get_default word 0 words + 1) words) table.

Definition count_item (acc : dict (dict nat) * dict (dict nat))
  (item : TrainingSample) : dict (dict nat) * dict (dict nat) :=
  let words := extract_words (query item) in
  let category_words := ensure_label (category item) (fst acc) in
  let priority_words := ensure_label (priority item) (snd acc) in
  fold_left
    (fun acc word =>
       (count_word (category item) word (fst acc),
        count_word (priority item) word (snd acc)))
    words (category_words, priority_words).

(** [sorted(items, key=lambda x: x[1], reverse=True)]: a stable sort by
    decreasing count.  The result of a stable sort does not depend on the
    algorithm, so insertion sort stands for Python's. *)
Fixpoint insert_desc (x : string * nat) (l : list (string * nat))
  : list (string * nat) :=
  match l with
  | [] => [x]
  | y :: r => if snd x <? snd y then y :: insert_desc x r else x :: l
  end.

Definition sorted_desc (l : list (string * nat)) : list (string * nat) :=
  fold_right insert_desc [] l.

(** [[word for word, count in sorted(...)[:n] if count > 1]] *)
Definition top_words (n : nat) (words : dict nat) : list string :=
  map fst (filter (fun wc => 1 <? snd wc) (firstn n (sorted_desc words))).

Definition build_table (n : nat) (counts : dict (dict nat))
  : dict (list string) :=
  fold_left (fun table lw => set (fst lw) (top_words n (snd lw)) table)
            counts [].

Definition count_all (data : list TrainingSample)
  : dict (dict nat) * dict (dict nat) :=
  fold_left count_item data ([], []).

Definition build_patterns (self : Service) : Service :=
  match training_data self with
  | [] => setup_default_patterns self
  | _ =>
      let counts := count_all (training_data self) in
      mkService (models_loaded self) (training_data self)
                (build_table 50 (fst counts)) (build_table 30 (snd counts))
  end.

(** [StandaloneMLService.__init__] *)
Definition empty_service : Service := mkService false [] [] [].

Definition init (file : CsvFile) : Service :=
  build_patterns (load_csv_data file empty_service).

(** *** [rule_based_classification] *)

(** The code returns [(None, None)] when no rule applies, and the caller
    tests the category for truth; every rule's category is a non-empty
    string, so the result is an option. *)
Definition rule_based_classification (query_lower : string)
  (words : list string) : option (string * string) :=
  if any_in ["water"; "tap"; "leak"; "plumbing"; "pipe"; "drainage"] query_lower
  then
    if any_in ["hostel"; "room"; "mess"] query_lower
    then Some ("Hostel/Mess", "urgent")
    else Some ("Maintenance", "urgent")
  else if any_in ["electricity"; "power"; "light"; "bulb"; "electrical"]
                 query_lower
  then
    if any_in ["hostel"; "room"] query_lower
    then Some ("Hostel/Mess", "urgent")
    else Some ("Maintenance", "high")
  else if any_in ["food"; "meal"; "mess"; "dining"; "kitchen"; "quality"]
                 query_lower
  then Some ("Hostel/Mess", "high")
  else if any_in ["room"; "furniture"; "bed"; "chair"; "table"] query_lower
  then Some ("Hostel/Mess", "medium")
  else if any_in ["login"; "portal"; "password"; "access"] query_lower
  then Some ("Technical", "urgent")
  else if any_in ["wifi"; "internet"; "network"; "connection"] query_lower
  then Some ("Technical", "urgent")
  else if any_in ["grade"; "marks"; "exam"; "certificate"; "attendance"]
                 query_lower
  then Some ("Academic", "high")
  else if any_in ["broken"; "repair"; "fix"; "maintenance"; "elevator"; "lift"]
                 query_lower
  then Some ("Maintenance", "urgent")
  else None.

(** *** Context rules *)

(** [scores[label] = scores.get(label, 0) + amount] *)
Definition boost (label : string) (amount : Q) (scores : dict Q) : dict Q :=
  set label (get_default label 0%Q scores + amount)%Q scores.

Definition apply_context_rules (query_lower : string) (words : list string)
  (category_scores : dict Q) : dict Q :=
  let category_scores :=
    if contains "hostel" query_lower || contains "room" query_lower
    then boost "Hostel/Mess" 3%Q category_scores else category_scores in
  let category_scores :=
    if any_in ["broken"; "not working"; "repair"; "fix"] query_lower
    then boost "Maintenance" 2%Q category_scores else category_scores in
  let category_scores :=
    if any_in ["portal"; "system"; "software"; "computer"] query_lower
    then boost "Technical" 2%Q category_scores else category_scores in
  let category_scores :=
    if any_in ["exam"; "grade"; "class"; "lecture"] query_lower
    then boost "Academic" 2%Q category_scores else category_scores in
  category_scores.

Definition apply_priority_context (query_lower : string) (words : list string)
  (cat : string) (priority_scores : dict Q) : dict Q :=
  let priority_scores :=
    if any_in ["urgent"; "emergency"; "immediately"; "asap"] query_lower
    then boost "urgent" 5%Q priority_scores else priority_scores in
  let priority_scores :=
    if any_in ["broken"; "not working"; "damaged"] query_lower
    then boost "urgent" 3%Q priority_scores else priority_scores in
  let priority_scores :=
    if any_in ["important"; "needed"; "required"; "missing"] query_lower
    then boost "high" 2%Q priority_scores else priority_scores in
  let priority_scores :=
    if any_in ["exam"; "grade"; "certificate"] query_lower
    then boost "high" 2%Q priority_scores else priority_scores in
  let priority_scores :=
    if String.eqb cat "Maintenance"
       && any_in ["water"; "electricity"; "elevator"] query_lower
    then boost "urgent" 2%Q priority_scores else priority_scores in
  let priority_scores :=
    if String.eqb cat "Technical"
       && any_in ["login"; "portal"; "wifi"] query_lower
    then boost "urgent" 2%Q priority_scores else priority_scores in
  priority_scores.

(** *** [classify_user_query] *)

(** [a > b] on scores *)
Definition Qgtb (a b : Q) : bool := negb (Qle_bool a b).

(** The inner loops of step 2 for one category. *)
Definition category_score (patterns words : list string) : Q :=
  fold_left
    (fun score word =>
       let score := if mem word patterns then (score + 2)%Q else score in
       fold_left
         (fun score pattern =>
            if contains pattern word || contains word pattern
            then (score + (1 # 2))%Q else score)
         patterns score)
    words 0%Q.

(** [sum(2 if word in patterns else 0 for word in words)] *)
Definition priority_score (patterns words : list string) : Q :=
  fold_left Qplus
    (map (fun word => if mem word patterns then 2%Q else 0%Q) words) 0%Q.

Definition score_table (score : list string -> list string -> Q)
  (table : dict (list string)) (words : list string) : dict Q :=
  fold_left (fun scores lp => set (fst lp) (score (snd lp) words) scores)
            table [].

(** [max(d, key=d.get)] on a non-empty dict whose first item is [(k, v)]:
    a later key replaces the current one only when its value is strictly
    greater. *)
Fixpoint max_key_from (k : string) (v : Q) (rest : dict Q) : string :=
  match rest with
  | [] => k
  | (k', v') :: r =>
      if Qgtb v' v then max_key_from k' v' r else max_key_from k v r
  end.

(** [max(values)] on a non-empty sequence whose first element is [v]. *)
Fixpoint max_value_from (v : Q) (rest : list Q) : Q :=
  match rest with
  | [] => v
  | v' :: r => if Qgtb v' v then max_value_from v' r else max_value_from v r
  end.

Inductive outcome (A : Type) : Type :=
| Returned (a : A)
| Raised (exn : string).
Arguments Returned {A} a.
Arguments Raised {A} exn.

Definition adjusted_category_scores (self : Service) (query : string) : dict Q :=
  apply_context_rules (lower query) (extract_words query)
    (score_table category_score (category_patterns self) (extract_words query)).

Definition predicted_category (self : Service) (query : string) : string :=
  match adjusted_category_scores self query with
  | [] => "Technical"
  | (k, v) :: rest => max_key_from k v rest
  end.

Definition adjusted_priority_scores (self : Service) (query : string) : dict Q :=
  apply_priority_context (lower query) (extract_words query)
    (predicted_category self query)
    (score_table priority_score (priority_patterns self) (extract_words query)).

(** Steps 2 to 4, run when no rule applies.  [max(priority_scores.values())]
    raises [ValueError] on an empty dict. *)
Definition scoring_path (self : Service) (query : string)
  : outcome (string * string) :=
  match adjusted_priority_scores self query with
  | [] => Raised "ValueError"
  | (k, v) :: rest =>
      let predicted_priority :=
        if Qgtb (max_value_from v (values rest)) 0%Q
        then max_key_from k v rest
        else "medium" in
      Returned (predicted_category self query, predicted_priority)
  end.

Definition classify_user_query (self : Service) (query : string)
  : outcome (string * string) :=
  let words := extract_words query in
  let query_lower := lower query in
  match rule_based_classification query_lower words with
  | Some (cat, pri) => Returned (cat, pri)
  | None => scoring_path self query
  end.

(** The enumerations of the data model. *)
Definition CATEGORIES : list string :=
  ["Technical"; "Academic"; "Hostel/Mess"; "Maintenance"].
Definition PRIORITIES : list string := ["low"; "medium"; "high"; "urgent"].

(** ** Request handling around the classifier

    The rest of [standalone_ml.py] ([token_required], [classify_query],
    [ml_status]) and the caller of the classifier in
    [routes/complaints.py] ([submit_complaint], up to the point where the
    complaint object exists), with the part of [models/complaint.py] it
    goes through. *)

(** [s.split(sep)] for a one-character separator, without a limit. *)
Fixpoint split_sep_from (sep : ascii) (cur s : string) : list string :=
  match s with
  | EmptyString => [cur]
  | String c r =>
      if Ascii.eqb c sep then cur :: split_sep_from sep EmptyString r
      else split_sep_from sep (cur ++ String c EmptyString)%string r
  end.

Definition split_sep (sep : ascii) (s : string) : list string :=
  split_sep_from sep EmptyString s.

(** Truth value of a string: [bool(s)]. *)
Definition truthy (s : string) : bool := negb (String.eqb s "").

(** [a or b] on optional integers: [None] and [0] are false. *)
Definition py_or (a b : option Z) : option Z :=
  match a with
  | Some n => if Z.eqb n 0 then b else a
  | None => b
  end.

(** What [jwt.decode(token, key, algorithms=['HS256'])] does with a token:
    the three fields the decorator reads from the payload, one of the two
    exceptions it handles, or any other exception. *)
Inductive jwt_result : Type :=
| JwtPayload (user_id admin_id : option Z) (role : option string)
| JwtExpired
| JwtInvalid
| JwtRaises.

(** What the decorator does with a request: answer by itself, call the
    wrapped view with the identity it read, or let an exception escape. *)
Inductive auth_outcome : Type :=
| AuthReply (status : nat) (message : string)
| AuthCall (current_user_id : option Z) (current_user_role : option string)
| AuthEscapes.

(** [auth_header.split(' ')[1]] when the header is set and starts with
    "Bearer "; the outer [None] stands for the [IndexError] of the
    subscript, the inner one for [token = None]. *)
Definition bearer_token (auth_header : option string)
  : option (option string) :=
  match auth_header with
  | Some h =>
      if truthy h && String.prefix "Bearer " h
      then match nth_error (split_sep " " h) 1 with
           | Some t => Some (Some t)
           | None => None
           end
      else Some None
  | None => Some None
  end.

Section TokenRequired.

Variable jwt_decode : string -> jwt_result.

Definition token_required (auth_header : option string) : auth_outcome :=
  match bearer_token auth_header with
  | None => AuthEscapes
  | Some token =>
      match token with
      | None => AuthReply 401 "Token is missing"
      | Some t =>
          if truthy t then
            match jwt_decode t with
            | JwtPayload user_id admin_id role =>
                AuthCall (py_or user_id admin_id) role
            | JwtExpired => AuthReply 401 "Token has expired"
            | JwtInvalid => AuthReply 401 "Token is invalid"
            | JwtRaises => AuthEscapes
            end
          else AuthReply 401 "Token is missing"
      end
  end.

End TokenRequired.

(** The JSON body of a classification request, as far as [classify_query]
    looks at it: [request.json] raises, or is a false value, or is a true
    value without [get] (a list, a string, a number), or is an object. *)
Inductive query_field : Type :=
| QueryFalse                 (* no "query" key, or a false value not a string *)
| QueryText (s : string)
| QueryOther.                (* a true value that is not a string *)

Inductive json_body : Type :=
| BodyRaises
| BodyFalse
| BodyNotObject
| BodyObject (q : query_field).

Inductive ml_reply : Type :=
| MlError (status : nat) (message : string)
| MlClassified (query_text predicted_category predicted_priority : string)
               (current_user_id : option Z) (current_user_role : option string)
               (loaded : bool).

(** [classify_query], the view behind [POST /api/ml/classify]; every
    exception raised in its body is answered with status 500. *)
Definition classify_query (ml_service : Service)
  (current_user_id : option Z) (current_user_role : option string)
  (body : json_body) : ml_reply :=
  match body with
  | BodyRaises => MlError 500 "Internal server error"
  | BodyFalse => MlError 400 "Query text is required"
  | BodyNotObject => MlError 500 "Internal server error"
  | BodyObject QueryFalse => MlError 400 "Query text is required"
  | BodyObject QueryOther => MlError 500 "Internal server error"
  | BodyObject (QueryText s) =>
      if negb (truthy s) then MlError 400 "Query text is required"
      else
        let query_text := strip isspace s in
        if String.length query_text <? 5
        then MlError 400 "Query text must be at least 5 characters long"
        else
          match classify_user_query ml_service query_text with
          | Returned (cat, pri) =>
              MlClassified query_text cat pri current_user_id
                           current_user_role (models_loaded ml_service)
          | Raised _ => MlError 500 "Internal server error"
          end
  end.

(** The data of [ml_status]: [models_loaded], [available_categories],
    [available_priorities], [training_samples]. *)
Definition ml_status (ml_service : Service)
  : bool * list string * list string * nat :=
  (models_loaded ml_service,
   keys (category_patterns ml_service),
   keys (priority_patterns ml_service),
   List.length (training_data ml_service)).

(** [models/complaint.py]: the two enumerations and the constructor. *)
Module Complaints.

Inductive ComplaintCategory : Type :=
| TECHNICAL | ACADEMIC | HOSTEL_MESS | MAINTENANCE.

Inductive ComplaintPriority : Type := LOW | MEDIUM | HIGH | URGENT.

Definition category_value (c : ComplaintCategory) : string :=
  match c with
  | TECHNICAL => "Technical"
  | ACADEMIC => "Academic"
  | HOSTEL_MESS => "Hostel/Mess"
  | MAINTENANCE => "Maintenance"
  end.

Definition priority_value (p : ComplaintPriority) : string :=
  match p with
  | LOW => "low"
  | MEDIUM => "medium"
  | HIGH => "high"
  | URGENT => "urgent"
  end.

(** [ComplaintCategory(value)]: the member with that value; [None] stands
    for the [ValueError] raised when there is none. *)
Definition category_of_value (value : string) : option ComplaintCategory :=
  find (fun c => String.eqb (category_value c) value)
       [TECHNICAL; ACADEMIC; HOSTEL_MESS; MAINTENANCE].

Definition priority_of_value (value : string) : option ComplaintPriority :=
  find (fun p => String.eqb (priority_value p) value)
       [LOW; MEDIUM; HIGH; URGENT].

(** The fields [Complaint.__init__] sets from its arguments (the ticket id
    is drawn at random and is left out). *)
Record Complaint : Type := mkComplaint {
  user_id : option Z;
  title : string;
  description : string;
  category : ComplaintCategory;
  priority : ComplaintPriority
}.

Definition new (uid : option Z) (title description cat pri : string)
  : option Complaint :=
  match category_of_value cat with
  | None => None
  | Some c =>
      match priority_of_value pri with
      | None => None
      | Some p => Some (mkComplaint uid title description c p)
      end
  end.

End Complaints.

(** [submit_complaint] up to the creation of the complaint: either the
    view has answered, or it holds the new complaint, with the labels it
    will report under "classification", and goes on to store it. *)
Inductive submit_progress : Type :=
| SubmitReply (status : nat) (message : string)
| SubmitCreated (complaint : Complaints.Complaint) (cat pri : string).

Definition form_get (field : option string) : string :=
  match field with
  | Some v => v
  | None => ""
  end.

Definition submit_complaint (ml_service : Service)
  (current_user_id : option Z) (current_user_role : option string)
  (form_title form_description : option string) : submit_progress :=
  let allowed :=
    match current_user_role with
    | Some r => mem r ["student"; "faculty"]
    | None => false
    end in
  if negb allowed
  then SubmitReply 403 "Only students and faculty can submit complaints"
  else
    let title := strip isspace (form_get form_title) in
    let description := strip isspace (form_get form_description) in
    if negb (truthy title) || negb (truthy description)
    then SubmitReply 400 "Title and description are required"
    else if (String.length title <? 5) || (String.length description <? 10)
    then SubmitReply 400
           "Title must be at least 5 characters and description at least 10 characters"
    else
      let labels :=
        match classify_user_query ml_service
                (title ++ " " ++ description)%string with
        | Returned labels => labels
        | Raised _ => ("Technical", "medium")
        end in
      match Complaints.new current_user_id title description
                           (fst labels) (snd labels) with
      | Some complaint => SubmitCreated complaint (fst labels) (snd labels)
      | None => SubmitReply 500 "Internal server error"
      end.

(** ** The file check of the upload ([utils/cloudinary_service.py])

    [submit_complaint] hands every attachment to [upload_file], which
    starts with [is_allowed_file]. *)

Definition allowed_extensions : dict (list string) :=
  [ ("images", ["png"; "jpg"; "jpeg"; "gif"; "bmp"; "webp"]);
    ("documents", ["pdf"; "doc"; "docx"; "txt"; "rtf"]);
    ("spreadsheets", ["xls"; "xlsx"; "csv"]);
    ("presentations", ["ppt"; "pptx"]);
    ("archives", ["zip"; "rar"; "7z"]);
    ("audio", ["mp3"; "wav"; "ogg"; "m4a"]);
    ("video", ["mp4"; "avi"; "mov"; "wmv"; "flv"]) ].

(** [s.rsplit(sep, 1)] when it has two elements: the text before and the
    text after the last [sep]; [None] when [sep] does not occur. *)
Fixpoint rsplit_once (sep : ascii) (s : string) : option (string * string) :=
  match s with
  | EmptyString => None
  | String c r =>
      match rsplit_once sep r with
      | Some (before, after) => Some (String c before, after)
      | None => if Ascii.eqb c sep then Some (EmptyString, r) else None
      end
  end.

(** The loop [for file_type, extensions in self.allowed_extensions.items()]
    with its test [extension in extensions]. *)
Definition file_type_of (extension : string) : option string :=
  option_map fst (find (fun te => mem extension (snd te)) allowed_extensions).

(** [is_allowed_file]; a missing second element of [rsplit] would be an
    [IndexError]. *)
Definition is_allowed_file (filename : option string)
  : outcome (bool * string) :=
  match filename with
  | None => Returned (false, "No file extension found")
  | Some f =>
      if negb (truthy f) || negb (contains "." f)
      then Returned (false, "No file extension found")
      else
        match rsplit_once "." f with
        | None => Raised "IndexError"
        | Some (_, after) =>
            match file_type_of (lower after) with
            | Some file_type => Returned (true, file_type)
            | None => Returned (false, "File type not allowed")
            end
        end
  end.

Definition get_file_type (filename : option string) : outcome string :=
  match filename with
  | None => Returned "unknown"
  | Some f =>
      if negb (truthy f) || negb (contains "." f)
      then Returned "unknown"
      else
        match rsplit_once "." f with
        | None => Raised "IndexError"
        | Some (_, after) =>
            match file_type_of (lower after) with
            | Some file_type => Returned file_type
            | None => Returned "unknown"
            end
        end
  end.

(** * Specification-side vocabulary

    The definitions of this part follow the wording of the specification;
    the theorems below relate them to the embedding of the code above. *)

Module Spec.

(** ** Word extraction (section 4.2) *)

Fixpoint all_chars (p : ascii -> bool) (s : string) : bool :=
  match s with
  | EmptyString => true
  | String c r => p c && all_chars p r
  end.

(** A token: a non-empty run of characters none of which is whitespace. *)
Definition is_word (t : string) : Prop :=
  t <> EmptyString /\ all_chars (fun c => negb (isspace c)) t = true.

(** What may follow a token: the end of the text, or whitespace. *)
Definition at_separator (s : string) : Prop :=
  match s with
  | EmptyString => True
  | String c _ => isspace c = true
  end.

(** [Tokenizes s ts]: [ts] are the maximal whitespace-free runs of [s],
    from left to right. *)
Inductive Tokenizes : string -> list string -> Prop :=
| Tok_end : Tokenizes EmptyString []
| Tok_space : forall c s ts,
    isspace c = true -> Tokenizes s ts -> Tokenizes (String c s) ts
| Tok_word : forall t s ts,
    is_word t -> at_separator s -> Tokenizes s ts ->
    Tokenizes (t ++ s)%string (t :: ts).

(** Lower-case, then blank out what is not a letter, a digit or whitespace. *)
Definition norm_char (c : ascii) : ascii :=
  if keep_char (lower_char c) then lower_char c else " "%char.

Definition is_alnum_lower (c : ascii) : bool :=
  is_lower_ascii c || is_digit_ascii c.

(** ** Rule shortcuts (section 4.3, step 1) *)

Record shortcut : Type := mkShortcut {
  triggers : list string;
  companions : list string;
  with_companion : string * string;
  otherwise : string * string
}.

Definition plain (ws : list string) (res : string * string) : shortcut :=
  mkShortcut ws [] res res.

Definition shortcuts : list shortcut :=
  [ mkShortcut ["water"; "tap"; "leak"; "plumbing"; "pipe"; "drainage"]
               ["hostel"; "room"; "mess"]
               ("Hostel/Mess", "urgent") ("Maintenance", "urgent");
    mkShortcut ["electricity"; "power"; "light"; "bulb"; "electrical"]
               ["hostel"; "room"]
               ("Hostel/Mess", "urgent") ("Maintenance", "high");
    plain ["food"; "meal"; "mess"; "dining"; "kitchen"; "quality"]
          ("Hostel/Mess", "high");
    plain ["room"; "furniture"; "bed"; "chair"; "table"]
          ("Hostel/Mess", "medium");
    plain ["login"; "portal"; "password"; "access"] ("Technical", "urgent");
    plain ["wifi"; "internet"; "network"; "connection"] ("Technical", "urgent");
    plain ["grade"; "marks"; "exam"; "certificate"; "attendance"]
          ("Academic", "high");
    plain ["broken"; "repair"; "fix"; "maintenance"; "elevator"; "lift"]
          ("Maintenance", "urgent") ].

Definition fires (r : shortcut) (text : string) : bool :=
  any_in (triggers r) text.

Definition verdict (r : shortcut) (text : string) : string * string :=
  if any_in (companions r) text then with_companion r else otherwise r.

(** The first rule, in the order of the table, one of whose trigger words
    occurs in the text. *)
Definition first_shortcut (text : string) : option (string * string) :=
  option_map (fun r => verdict r text) (find (fun r => fires r text) shortcuts).

(** ** Weighted scoring (step 2) *)

Definition Qsum (l : list Q) : Q := fold_right Qplus 0%Q l.

Definition exact_bonus (patterns : list string) (w : string) : Q :=
  if mem w patterns then 2%Q else 0%Q.

Definition partial_credit (patterns : list string) (w : string) : Q :=
  Qsum (map (fun p => if contains p w || contains w p then (1 # 2)%Q else 0%Q)
            patterns).

Definition category_formula (patterns words : list string) : Q :=
  Qsum (map (fun w => (exact_bonus patterns w + partial_credit patterns w)%Q)
            words).

Definition priority_formula (patterns words : list string) : Q :=
  Qsum (map (exact_bonus patterns) words).

(** ** Selection (step 4) *)

(** [k] is the first key of [d], in insertion order, that carries the
    maximum value, and that value is [v]. *)
Definition first_max (d : dict Q) (k : string) (v : Q) : Prop :=
  exists before after,
    d = before ++ (k, v) :: after /\
    Forall (fun kv => (snd kv < v)%Q) before /\
    Forall (fun kv => (snd kv <= v)%Q) after.

(** ** Pattern tables (section 4.1) *)

(** The words counted under label [l], in counting order. *)
Definition occurrences (label_of : TrainingSample -> string) (l : string)
  (data : list TrainingSample) : list string :=
  flat_map (fun item =>
              if String.eqb (label_of item) l
              then extract_words (query item) else [])
           data.

(** Distinct elements in order of first appearance. *)
Fixpoint first_occurrences (l : list string) : list string :=
  match l with
  | [] => []
  | w :: r => w :: filter (fun x => negb (String.eqb x w)) (first_occurrences r)
  end.

Definition frequency (l : list string) (w : string) : nat :=
  count_occ string_dec l w.

(** Each distinct word with its frequency, in first-counted order. *)
Definition word_counts (l : list string) : dict nat :=
  map (fun w => (w, frequency l w)) (first_occurrences l).

Definition by_count_desc (a b : string * nat) : Prop := snd b <= snd a.

(** [l'] lists the entries of [l] by decreasing count, entries of equal
    count staying in the order they have in [l]. *)
Definition stable_desc (l l' : list (string * nat)) : Prop :=
  Permutation l l' /\
  StronglySorted by_count_desc l' /\
  forall c, filter (fun wc => snd wc =? c) l' = filter (fun wc => snd wc =? c) l.

(** [pats] lists the top [n] words counted in [occ]: the first [n] entries
    of the tally sorted by decreasing count (first-counted order among
    equal counts), without the words counted once. *)
Definition top_listing (n : nat) (occ pats : list string) : Prop :=
  exists sorted,
    stable_desc (word_counts occ) sorted /\
    pats = map fst (filter (fun wc => 1 <? snd wc) (firstn n sorted)) /\
    List.length pats <= n /\
    NoDup pats /\
    (forall w, In w pats -> 2 <= frequency occ w) /\
    StronglySorted (fun a b => frequency occ b <= frequency occ a) pats.

(** The default tables as printed in section 4.1. *)
Definition category_defaults : dict (list string) :=
  [ ("Technical", ["login"; "password"; "portal"; "wifi"; "internet";
                   "network"; "computer"; "laptop"; "software"; "email";
                   "lms"; "system"]);
    ("Academic", ["grade"; "marks"; "exam"; "attendance"; "lecture"; "class";
                  "assignment"; "certificate"; "transfer"; "timetable";
                  "professor"]);
    ("Hostel/Mess", ["hostel"; "room"; "mess"; "food"; "meal";
                     "accommodation"; "furniture"; "allotment"; "quality";
                     "dining"]);
    ("Maintenance", ["maintenance"; "repair"; "broken"; "electricity";
                     "water"; "tap"; "elevator"; "cleaning"; "lighting";
                     "conditioning"]) ].

Definition priority_defaults : dict (list string) :=
  [ ("urgent", ["urgent"; "emergency"; "immediately"; "broken"; "not";
                "working"; "critical"]);
    ("high", ["important"; "soon"; "needed"; "missing"; "exam"; "grade";
              "deteriorated"]);
    ("medium", ["moderate"; "normal"; "permission"; "competition"; "week"]);
    ("low", ["later"; "minor"; "simple"; "routine"; "cleaning"; "dim"]) ].

(** A line the loader keeps: at least three comma-separated parts. *)
Definition well_formed (line : string) : bool :=
  3 <=? List.length (split_on ","%char 2 (strip isspace line)).

(** One iteration of the counting loop of [build_patterns], seen from one
    of its two tables: [label_of] is [category] or [priority]. *)
Definition count_item_for (label_of : TrainingSample -> string)
  (table : dict (dict nat)) (item : TrainingSample) : dict (dict nat) :=
  fold_left (fun table word => count_word (label_of item) word table)
            (extract_words (query item))
            (ensure_label (label_of item) table).

(** What holds of the tables of every service the constructor builds:
    they are dicts (no key twice) and they have at least one label. *)
Definition tables_ok (self : Service) : Prop :=
  NoDup (keys (category_patterns self)) /\
  NoDup (keys (priority_patterns self)) /\
  category_patterns self <> [] /\
  priority_patterns self <> [].

End Spec.

Import Spec.

(** ** Derived forms, for the theorems on the scoring path *)

(** The category context rules without the tests that cannot succeed once
    every shortcut has declined the text. *)
Definition live_context_rules (query_lower : string) (category_scores : dict Q)
  : dict Q :=
  let category_scores :=
    if contains "hostel" query_lower
    then boost "Hostel/Mess" 3%Q category_scores else category_scores in
  let category_scores :=
    if contains "not working" query_lower
    then boost "Maintenance" 2%Q category_scores else category_scores in
  let category_scores :=
    if any_in ["system"; "software"; "computer"] query_lower
    then boost "Technical" 2%Q category_scores else category_scores in
  let category_scores :=
    if any_in ["class"; "lecture"] query_lower
    then boost "Academic" 2%Q category_scores else category_scores in
  category_scores.

(** Likewise for the priority context rules; the predicted category is no
    longer an argument. *)
Definition live_priority_context (query_lower : string)
  (priority_scores : dict Q) : dict Q :=
  let priority_scores :=
    if any_in ["urgent"; "emergency"; "immediately"; "asap"] query_lower
    then boost "urgent" 5%Q priority_scores else priority_scores in
  let priority_scores :=
    if any_in ["not working"; "damaged"] query_lower
    then boost "urgent" 3%Q priority_scores else priority_scores in
  let priority_scores :=
    if any_in ["important"; "needed"; "required"; "missing"] query_lower
    then boost "high" 2%Q priority_scores else priority_scores in
  priority_scores.

(** A word as [extract_words] produces them. *)
Definition clean_word (w : string) : Prop :=
  all_chars is_alnum_lower w = true /\ 2 < String.length w.

(** Every entry of every pattern list is such a word. *)
Definition clean_table (table : dict (list string)) : Prop :=
  forall label patterns w,
    In (label, patterns) table -> In w patterns -> clean_word w.

(** * Facts about the string primitives *)

Lemma str_app_nil_r : forall s : string, (s ++ "")%string = s.
Proof. induction s as [|c s IH]; simpl; [reflexivity | now rewrite IH]. Qed.

Lemma str_app_assoc : forall a b c : string,
  ((a ++ b) ++ c)%string = (a ++ (b ++ c))%string.
Proof. induction a as [|x a IH]; intros; simpl; [reflexivity | now rewrite IH]. Qed.

Lemma str_app_length : forall a b : string,
  String.length (a ++ b) = String.length a + String.length b.
Proof. induction a as [|x a IH]; intros; simpl; [reflexivity | now rewrite IH]. Qed.

Lemma all_chars_app : forall p a b,
  all_chars p (a ++ b) = all_chars p a && all_chars p b.
Proof.
  induction a as [|x a IH]; intros; simpl; [reflexivity|].
  now rewrite IH, andb_assoc.
Qed.

Lemma lower_char_not_upper : forall c, is_upper_ascii (lower_char c) = false.
Proof.
  intros [b0 b1 b2 b3 b4 b5 b6 b7].
  destruct b0, b1, b2, b3, b4, b5, b6, b7; reflexivity.
Qed.

Lemma norm_char_class : forall c,
  is_alnum_lower (norm_char c) || isspace (norm_char c) = true.
Proof.
  intros c. unfold norm_char, keep_char, is_alnum_lower.
  rewrite lower_char_not_upper.
  destruct (is_lower_ascii (lower_char c)) eqn:El; simpl.
  - now rewrite El.
  - destruct (is_digit_ascii (lower_char c)) eqn:Ed; simpl.
    + now rewrite El, Ed.
    + destruct (isspace (lower_char c)) eqn:Es; simpl.
      * now rewrite El, Ed, Es.
      * reflexivity.
Qed.

Lemma normalize_get : forall text i,
  String.get i (sub_non_alnum (lower text))
  = option_map norm_char (String.get i text).
Proof.
  induction text as [|c r IH]; intros i; simpl; [reflexivity|].
  destruct i; simpl; [reflexivity | apply IH].
Qed.

Lemma normalize_length : forall text,
  String.length (sub_non_alnum (lower text)) = String.length text.
Proof. induction text as [|c r IH]; simpl; [reflexivity | now rewrite IH]. Qed.

Lemma normalize_class : forall text,
  all_chars (fun c => is_alnum_lower c || isspace c)
            (sub_non_alnum (lower text)) = true.
Proof.
  induction text as [|c r IH]; simpl; [reflexivity|].
  rewrite IH, andb_true_r. apply (norm_char_class c).
Qed.

(** ** [str.split()] against the grammar of tokens *)

Lemma flush_word : forall tok, tok <> EmptyString -> flush tok = [tok].
Proof. intros [|c r] H; [now elim H | reflexivity]. Qed.

(** Reading on from inside a token: the scan consumes the rest [u] of the
    token and restarts at the separator. *)
Lemma split_from_word : forall s tok,
  tok <> EmptyString ->
  exists u rest,
    s = (u ++ rest)%string /\
    all_chars (fun c => negb (isspace c)) u = true /\
    at_separator rest /\
    split_from tok s = (tok ++ u)%string :: split rest.
Proof.
  induction s as [|c r IH]; intros tok Htok.
  - exists EmptyString, EmptyString. simpl.
    rewrite str_app_nil_r, (flush_word _ Htok). auto.
  - simpl. destruct (isspace c) eqn:Ec.
    + exists EmptyString, (String c r). simpl.
      rewrite str_app_nil_r, (flush_word _ Htok).
      unfold split. simpl. rewrite Ec. simpl. auto.
    + destruct (IH (tok ++ String c EmptyString)%string) as (u & rest & -> & Hu & Hr & Hs).
      { destruct tok; discriminate. }
      exists (String c u), rest. simpl. rewrite Ec, Hu.
      rewrite Hs, str_app_assoc. simpl. auto.
Qed.

Lemma split_sound_bounded : forall n s,
  String.length s <= n -> Tokenizes s (split s).
Proof.
  induction n as [|n IH]; intros s Hn.
  - destruct s; [constructor | simpl in Hn; lia].
  - destruct s as [|c r]; [constructor|].
    simpl in Hn. unfold split. simpl.
    destruct (isspace c) eqn:Ec.
    + simpl. apply Tok_space; [assumption|]. apply IH. lia.
    + destruct (split_from_word r (String c EmptyString)) as (u & rest & -> & Hu & Hr & Hs).
      { discriminate. }
      rewrite Hs. simpl.
      apply (Tok_word (String c u) rest).
      * split; [discriminate|]. simpl. now rewrite Ec, Hu.
      * assumption.
      * apply IH. rewrite str_app_length in Hn. lia.
Qed.

Lemma split_sound : forall s, Tokenizes s (split s).
Proof. intros s. apply (split_sound_bounded (String.length s)). lia. Qed.

Lemma split_from_token : forall t tok s,
  all_chars (fun c => negb (isspace c)) t = true ->
  at_separator s ->
  (tok ++ t)%string <> EmptyString ->
  split_from tok (t ++ s) = (tok ++ t)%string :: split s.
Proof.
  induction t as [|c t IH]; intros tok s Ht Hs Hne.
  - rewrite str_app_nil_r in *. simpl.
    destruct s as [|x r]; simpl in *.
    + now rewrite (flush_word _ Hne).
    + rewrite Hs, (flush_word _ Hne). unfold split. simpl. now rewrite Hs.
  - simpl in Ht. apply andb_true_iff in Ht as [Hc Ht].
    apply negb_true_iff in Hc. simpl. rewrite Hc.
    rewrite IH; try assumption.
    + now rewrite str_app_assoc.
    + rewrite str_app_assoc. simpl. destruct tok; discriminate.
Qed.

Lemma split_complete : forall s ts, Tokenizes s ts -> ts = split s.
Proof.
  induction 1 as [|c s ts Hc _ IH|t s ts [Hne Ht] Hs _ IH].
  - reflexivity.
  - unfold split. simpl. now rewrite Hc.
  - unfold split. rewrite split_from_token by assumption. now rewrite IH.
Qed.

Lemma tokens_class : forall p s ts,
  Tokenizes s ts ->
  all_chars (fun c => p c || isspace c) s = true ->
  Forall (fun w => all_chars p w = true) ts.
Proof.
  induction 1 as [|c s ts Hc _ IH|t s ts [Hne Ht] Hs _ IH]; intros Hall.
  - constructor.
  - simpl in Hall. apply andb_true_iff in Hall as [_ Hall]. auto.
  - rewrite all_chars_app in Hall. apply andb_true_iff in Hall as [Hw Hall].
    constructor; [|auto].
    clear - Ht Hw. induction t as [|c t IH]; [reflexivity|].
    simpl in *. apply andb_true_iff in Ht as [Hc Ht].
    apply andb_true_iff in Hw as [Hpc Hw].
    rewrite (IH Ht Hw), andb_true_r.
    apply negb_true_iff in Hc. rewrite Hc, orb_false_r in Hpc. exact Hpc.
Qed.

(** * Word extraction *)

(** C6. [extract_words] lower-cases the text and turns every character that
    is not an ASCII letter, an ASCII digit or whitespace into a space
    (character by character, so positions are kept); its result is the list
    of maximal whitespace-free runs of that text, in order of occurrence and
    with repetitions, restricted to the runs longer than two characters.
    The runs are uniquely determined by the text, so equal inputs give equal
    token sequences, and every token is made of lower-case ASCII letters and
    digits. *)
Theorem extract_words_contract : forall text,
  let norm := sub_non_alnum (lower text) in
  String.length norm = String.length text /\
  (forall i, String.get i norm = option_map norm_char (String.get i text)) /\
  Tokenizes norm (split norm) /\
  (forall ts, Tokenizes norm ts -> ts = split norm) /\
  extract_words text = filter (fun w => 2 <? String.length w) (split norm) /\
  Forall (fun w => all_chars is_alnum_lower w = true /\ 2 < String.length w)
         (extract_words text).
Proof.
  intros text norm. subst norm.
  split; [apply normalize_length|].
  split; [apply normalize_get|].
  split; [apply split_sound|].
  split; [apply split_complete|].
  split; [reflexivity|].
  unfold extract_words. apply Forall_forall. intros w Hw.
  apply filter_In in Hw as [Hin Hlen].
  split; [|now apply Nat.ltb_lt].
  pose proof (tokens_class is_alnum_lower _ _ (split_sound _)
                (normalize_class text)) as Hall.
  rewrite Forall_forall in Hall. now apply Hall.
Qed.

(** * Facts about dictionaries *)

Section DictFacts.
Context {V : Type}.
Implicit Types (d : dict V) (k : string) (v : V).

Lemma set_not_nil : forall k v d, set k v d <> [].
Proof. intros k v [|[k' v'] r]; simpl; [|destruct (String.eqb k' k)]; discriminate. Qed.

Lemma get_set_same : forall k v d, get k (set k v d) = Some v.
Proof.
  induction d as [|[k' v'] r IH]; simpl.
  - now rewrite String.eqb_refl.
  - destruct (String.eqb k' k) eqn:E; simpl; rewrite E; [reflexivity | exact IH].
Qed.

Lemma get_set_other : forall k k' v d, k <> k' -> get k' (set k v d) = get k' d.
Proof.
  induction d as [|[k0 v0] r IH]; intros Hne; simpl.
  - destruct (String.eqb_spec k k'); [contradiction | reflexivity].
  - destruct (String.eqb_spec k0 k) as [->|Hk]; simpl.
    + destruct (String.eqb_spec k k'); [contradiction | reflexivity].
    + now rewrite IH.
Qed.

Lemma get_None_keys : forall k d, get k d = None <-> ~ In k (keys d).
Proof.
  induction d as [|[k0 v0] r IH]; simpl.
  - tauto.
  - destruct (String.eqb_spec k0 k) as [->|Hk].
    + split; [discriminate | intros H; elim H; now left].
    + rewrite IH. tauto.
Qed.

Lemma get_Some_In : forall k v d, get k d = Some v -> In (k, v) d.
Proof.
  induction d as [|[k0 v0] r IH]; simpl; [discriminate|].
  destruct (String.eqb_spec k0 k) as [->|Hk].
  - intros [= ->]. now left.
  - intros H. right. auto.
Qed.

Lemma get_Some_keys : forall k v d, get k d = Some v -> In k (keys d).
Proof. intros k v d H. apply get_Some_In in H. now apply (in_map fst) in H. Qed.

Lemma In_get : forall k v d, NoDup (keys d) -> In (k, v) d -> get k d = Some v.
Proof.
  induction d as [|[k0 v0] r IH]; simpl; [tauto|].
  intros Hnd [H|H].
  - injection H as -> ->. now rewrite String.eqb_refl.
  - inversion Hnd as [|? ? Hnotin Hnd']; subst.
    destruct (String.eqb_spec k0 k) as [->|Hk].
    + elim Hnotin. now apply (in_map fst) in H.
    + auto.
Qed.

Lemma set_fresh : forall k v d, get k d = None -> set k v d = d ++ [(k, v)].
Proof.
  induction d as [|[k0 v0] r IH]; simpl; [reflexivity|].
  destruct (String.eqb k0 k); [discriminate|].
  intros H. now rewrite IH.
Qed.

Lemma keys_set_incl : forall k v d k',
  In k' (keys (set k v d)) -> k' = k \/ In k' (keys d).
Proof.
  induction d as [|[k0 v0] r IH]; simpl; intros k'.
  - intros [H|[]]; auto.
  - destruct (String.eqb_spec k0 k) as [->|Hk]; simpl.
    + tauto.
    + intros [H|H]; [tauto|]. destruct (IH _ H); tauto.
Qed.

Lemma keys_set_keeps : forall k v d k', In k' (keys d) -> In k' (keys (set k v d)).
Proof.
  induction d as [|[k0 v0] r IH]; simpl; intros k'; [tauto|].
  destruct (String.eqb k0 k); simpl; intros [H|H]; auto.
Qed.

Lemma NoDup_keys_set : forall k v d, NoDup (keys d) -> NoDup (keys (set k v d)).
Proof.
  induction d as [|[k0 v0] r IH]; simpl; intros Hnd.
  - constructor; [tauto | constructor].
  - inversion Hnd as [|? ? Hnotin Hnd']; subst.
    destruct (String.eqb_spec k0 k) as [->|Hk]; simpl.
    + now constructor.
    + constructor; [|auto].
      intros H. apply keys_set_incl in H as [H|H]; [now subst | contradiction].
Qed.

End DictFacts.

(** A loop [for k, x in table.items(): out[k] = f(x)] over a dict. *)
Section DictLoop.
Context {A B : Type} (f : A -> B).

Lemma loop_not_nil : forall (table : dict A) out,
  table <> [] \/ out <> [] ->
  fold_left (fun out kx => set (fst kx) (f (snd kx)) out) table out <> [].
Proof.
  induction table as [|kx r IH]; intros out H; simpl.
  - destruct H; [now elim H | assumption].
  - apply IH. right. apply set_not_nil.
Qed.

Lemma loop_keys_incl : forall (table : dict A) out k,
  In k (keys (fold_left (fun out kx => set (fst kx) (f (snd kx)) out)
                        table out)) ->
  In k (keys out) \/ In k (keys table).
Proof.
  induction table as [|kx r IH]; intros out k H; simpl in *; [tauto|].
  destruct (IH _ _ H) as [H'|H']; [|tauto].
  apply keys_set_incl in H' as [->|H']; tauto.
Qed.

Lemma loop_NoDup : forall (table : dict A) out,
  NoDup (keys out) ->
  NoDup (keys (fold_left (fun out kx => set (fst kx) (f (snd kx)) out)
                         table out)).
Proof.
  induction table as [|kx r IH]; intros out H; simpl; [assumption|].
  apply IH. now apply NoDup_keys_set.
Qed.

Lemma loop_as_map : forall (table : dict A) out,
  NoDup (keys table) ->
  (forall k, In k (keys table) -> ~ In k (keys out)) ->
  fold_left (fun out kx => set (fst kx) (f (snd kx)) out) table out
  = out ++ map (fun kx => (fst kx, f (snd kx))) table.
Proof.
  induction table as [|[k x] r IH]; intros out Hnd Hdisj; simpl.
  - now rewrite app_nil_r.
  - inversion Hnd as [|? ? Hnotin Hnd']; subst.
    rewrite set_fresh by (apply get_None_keys, Hdisj; now left).
    rewrite IH; [now rewrite <- app_assoc | assumption |].
    intros k' Hk' Hin. unfold keys in Hin. rewrite map_app in Hin.
    apply in_app_or in Hin as [Hin|[<-|[]]].
    + apply (Hdisj k'); [now right | assumption].
    + contradiction.
Qed.

End DictLoop.

Lemma score_table_as_map : forall score table words,
  NoDup (keys table) ->
  score_table score table words
  = map (fun lp => (fst lp, score (snd lp) words)) table.
Proof.
  intros score table words Hnd. unfold score_table.
  apply (loop_as_map (fun p => score p words) table [] Hnd).
  intros k _ [].
Qed.

Lemma build_table_as_map : forall n counts,
  NoDup (keys counts) ->
  build_table n counts = map (fun lw => (fst lw, top_words n (snd lw))) counts.
Proof.
  intros n counts Hnd. unfold build_table.
  apply (loop_as_map (top_words n) counts [] Hnd).
  intros k _ [].
Qed.

(** * Substring tests *)

Lemma prefix_app : forall n h,
  String.prefix n h = true <-> exists post, h = (n ++ post)%string.
Proof.
  induction n as [|c n IH]; intros h.
  - split; [intros _; exists h; reflexivity|]. intros _. now destruct h.
  - destruct h as [|x h]; simpl.
    + split; [discriminate | intros [post H]; discriminate].
    + destruct (ascii_dec c x) as [->|Hne].
      * rewrite IH. split; intros [post H]; exists post; congruence.
      * split; [discriminate | intros [post H]; congruence].
Qed.

(** [contains needle hay] holds exactly when [needle] occurs in [hay]. *)
Lemma contains_occurs : forall needle hay,
  contains needle hay = true <->
  exists pre post, hay = (pre ++ needle ++ post)%string.
Proof.
  intros needle hay. induction hay as [|x h IH].
  - cbn [contains]. rewrite orb_false_r, prefix_app. split.
    + intros [post H]. exists EmptyString, post. exact H.
    + intros [pre [post H]]. destruct pre; [now exists post | discriminate].
  - cbn [contains]. rewrite orb_true_iff, prefix_app, IH. split.
    + intros [[post H]|[pre [post H]]].
      * exists EmptyString, post. exact H.
      * exists (String x pre), post. simpl. now rewrite H.
    + intros [pre [post H]]. destruct pre as [|y pre].
      * left. now exists post.
      * right. simpl in H. injection H as _ H. now exists pre, post.
Qed.

Lemma any_in_occurs : forall needles hay,
  any_in needles hay = true <->
  exists w, In w needles /\ contains w hay = true.
Proof. intros. unfold any_in. apply existsb_exists. Qed.

(** * Rule shortcuts *)

Lemma rule_based_is_first_shortcut : forall ql words,
  rule_based_classification ql words = first_shortcut ql.
Proof.
  intros ql words.
  unfold rule_based_classification, first_shortcut, shortcuts, plain,
    verdict, fires.
  repeat (cbn [find option_map triggers companions with_companion otherwise];
          change (any_in [] ql) with false;
          match goal with
          | |- context [any_in ?l ql] => destruct (any_in l ql)
          end);
    reflexivity.
Qed.

(** C2. The eight shortcuts are tried in the order of the table, each as a
    substring test of its trigger words against the lower-cased text; the
    first rule that fires gives the result (rule 1 and rule 2 looking at
    their companion words), and the scoring stages run only when no rule
    fires.  For "My hostel tap is leaking" the result is
    (Hostel/Mess, urgent), whatever the pattern tables are. *)
Theorem shortcut_rules_first_match :
  (forall ql words, rule_based_classification ql words = first_shortcut ql) /\
  (forall r text,
     fires r text = true <->
     exists w pre post,
       In w (triggers r) /\ text = (pre ++ w ++ post)%string) /\
  (forall self query,
     classify_user_query self query =
     match first_shortcut (lower query) with
     | Some res => Returned res
     | None => scoring_path self query
     end) /\
  (forall self,
     classify_user_query self "My hostel tap is leaking"
     = Returned ("Hostel/Mess", "urgent")).
Proof.
  split; [exact rule_based_is_first_shortcut|].
  split.
  { intros r text. unfold fires. rewrite any_in_occurs. split.
    - intros (w & Hin & Hc). apply contains_occurs in Hc as (pre & post & H).
      now exists w, pre, post.
    - intros (w & pre & post & Hin & H). exists w. split; [assumption|].
      apply contains_occurs. now exists pre, post. }
  split.
  { intros self query. unfold classify_user_query.
    rewrite rule_based_is_first_shortcut.
    destruct (first_shortcut (lower query)) as [[c p]|]; reflexivity. }
  intros self. reflexivity.
Qed.

(** C3, as the code has it.  The text contains "exam", "grade" and
    "certificate", so rule 7 fires (no earlier rule does) and the result is
    (Academic, high) for every state of the service: the scoring stages,
    and with them the "urgent" boost, never run. *)
Theorem exam_certificate_query_is_academic_high : forall self,
  rule_based_classification
    (lower "I need help urgently, my exam grade certificate is missing")
    (extract_words "I need help urgently, my exam grade certificate is missing")
  = Some ("Academic", "high") /\
  classify_user_query self
    "I need help urgently, my exam grade certificate is missing"
  = Returned ("Academic", "high").
Proof. intros self. split; reflexivity. Qed.

(** The priority "urgent" announced for that text is not what the code
    gives: no service returns it. *)
Lemma exam_certificate_query_not_urgent :
  ~ exists self,
      classify_user_query self
        "I need help urgently, my exam grade certificate is missing"
      = Returned ("Academic", "urgent").
Proof. intros [self H]. vm_compute in H. discriminate H. Qed.

(** * The counting loop and the constructor *)

Lemma fold_left_pair : forall {A B C : Type} (f : A -> C -> A) (g : B -> C -> B)
  (l : list C) (a : A) (b : B),
  fold_left (fun acc x => (f (fst acc) x, g (snd acc) x)) l (a, b)
  = (fold_left f l a, fold_left g l b).
Proof. induction l as [|x l IH]; intros; simpl; [reflexivity | apply IH]. Qed.

Lemma count_item_split : forall acc item,
  count_item acc item
  = (count_item_for category (fst acc) item,
     count_item_for priority (snd acc) item).
Proof.
  intros acc item. unfold count_item, count_item_for.
  apply (fold_left_pair (fun t w => count_word (category item) w t)
                        (fun t w => count_word (priority item) w t)).
Qed.

Lemma count_all_split : forall data c p,
  fold_left count_item data (c, p)
  = (fold_left (count_item_for category) data c,
     fold_left (count_item_for priority) data p).
Proof.
  induction data as [|item data IH]; intros c p; simpl; [reflexivity|].
  rewrite count_item_split. simpl. apply IH.
Qed.

Lemma ensure_label_not_nil : forall l t, ensure_label l t <> [].
Proof.
  intros l t. unfold ensure_label, has_key.
  destruct (get l t) eqn:E; [|apply set_not_nil].
  destruct t; [discriminate E | discriminate].
Qed.

Lemma ensure_label_NoDup : forall l t,
  NoDup (keys t) -> NoDup (keys (ensure_label l t)).
Proof.
  intros l t H. unfold ensure_label.
  destruct (has_key l t); [assumption | now apply NoDup_keys_set].
Qed.

Lemma count_words_inv : forall (P : dict (dict nat) -> Prop) l,
  (forall w t, P t -> P (count_word l w t)) ->
  forall words t, P t ->
  P (fold_left (fun t w => count_word l w t) words t).
Proof.
  intros P l Hstep. induction words as [|w ws IH]; intros t Ht; simpl; auto.
Qed.

Lemma count_item_for_not_nil : forall label_of t item,
  count_item_for label_of t item <> [].
Proof.
  intros. unfold count_item_for.
  apply (count_words_inv (fun t => t <> [])).
  - intros w t' _. apply set_not_nil.
  - apply ensure_label_not_nil.
Qed.

Lemma count_item_for_NoDup : forall label_of t item,
  NoDup (keys t) -> NoDup (keys (count_item_for label_of t item)).
Proof.
  intros label_of t item H. unfold count_item_for.
  apply (count_words_inv (fun t => NoDup (keys t))).
  - intros w t' Ht'. now apply NoDup_keys_set.
  - now apply ensure_label_NoDup.
Qed.

Lemma count_loop_not_nil : forall label_of data t,
  data <> [] \/ t <> [] ->
  fold_left (count_item_for label_of) data t <> [].
Proof.
  induction data as [|item data IH]; intros t H; simpl.
  - destruct H; [now elim H | assumption].
  - apply IH. right. apply count_item_for_not_nil.
Qed.

Lemma count_loop_NoDup : forall label_of data t,
  NoDup (keys t) -> NoDup (keys (fold_left (count_item_for label_of) data t)).
Proof.
  induction data as [|item data IH]; intros t H; simpl; [assumption|].
  apply IH. now apply count_item_for_NoDup.
Qed.

Lemma default_tables_ok : forall self, tables_ok (setup_default_patterns self).
Proof.
  intros self. unfold tables_ok. simpl.
  repeat split; try discriminate;
    repeat (constructor; [simpl; intuition discriminate|]); constructor.
Qed.

Lemma build_patterns_ok : forall self, tables_ok (build_patterns self).
Proof.
  intros self. unfold build_patterns.
  destruct (training_data self) as [|item data] eqn:E.
  - apply default_tables_ok.
  - unfold tables_ok, count_all. rewrite count_all_split. simpl.
    repeat split.
    + apply (loop_NoDup (top_words 50)). constructor.
    + apply (loop_NoDup (top_words 30)). constructor.
    + apply (loop_not_nil (top_words 50)). left.
      apply count_loop_not_nil. right. apply count_item_for_not_nil.
    + apply (loop_not_nil (top_words 30)). left.
      apply count_loop_not_nil. right. apply count_item_for_not_nil.
Qed.

Lemma init_tables_ok : forall file, tables_ok (init file).
Proof. intros file. apply build_patterns_ok. Qed.

(** * Weighted scoring *)

Lemma partial_loop : forall (hit : string -> bool) patterns score,
  (fold_left (fun score pattern =>
                if hit pattern then (score + (1 # 2))%Q else score)
             patterns score
   == score + Qsum (map (fun p => if hit p then (1 # 2)%Q else 0%Q) patterns))%Q.
Proof.
  intros hit. induction patterns as [|p ps IH]; intros score; simpl.
  - ring.
  - rewrite IH. destruct (hit p); ring.
Qed.

Lemma category_loop : forall patterns words score,
  (fold_left
     (fun score word =>
        let score := if mem word patterns then (score + 2)%Q else score in
        fold_left
          (fun score pattern =>
             if contains pattern word || contains word pattern
             then (score + (1 # 2))%Q else score)
          patterns score)
     words score
   == score + category_formula patterns words)%Q.
Proof.
  intros patterns. induction words as [|w ws IH]; intros score.
  - simpl. unfold category_formula. simpl. ring.
  - cbn [fold_left]. rewrite IH.
    rewrite (partial_loop
               (fun p => contains p w || contains w p) patterns).
    unfold category_formula. cbn [map Qsum fold_right].
    fold (Qsum (map (fun w0 => (exact_bonus patterns w0
                                 + partial_credit patterns w0)%Q) ws)).
    unfold exact_bonus at 2, partial_credit at 2.
    destruct (mem w patterns); ring.
Qed.

Lemma category_score_formula : forall patterns words,
  (category_score patterns words == category_formula patterns words)%Q.
Proof.
  intros. unfold category_score. rewrite category_loop. ring.
Qed.

Lemma sum_loop : forall (l : list Q) (acc : Q),
  (fold_left Qplus l acc == acc + Qsum l)%Q.
Proof.
  induction l as [|x l IH]; intros acc; simpl.
  - ring.
  - rewrite IH. ring.
Qed.

Lemma priority_score_formula : forall patterns words,
  (priority_score patterns words == priority_formula patterns words)%Q.
Proof.
  intros. unfold priority_score, priority_formula, exact_bonus.
  rewrite sum_loop. ring.
Qed.

Lemma score_table_get : forall score table words label patterns,
  NoDup (keys table) ->
  In (label, patterns) table ->
  get label (score_table score table words) = Some (score patterns words).
Proof.
  intros score table words label patterns Hnd Hin.
  rewrite score_table_as_map by assumption.
  apply In_get.
  - unfold keys. rewrite map_map. simpl. exact Hnd.
  - apply (in_map (fun lp => (fst lp, score (snd lp) words))) in Hin.
    exact Hin.
Qed.

(** C5. On the scoring path (no shortcut fired) the score recorded for a
    category label is the sum, over the extracted words, of 2 when the word
    is an entry of the label's pattern list, plus one half for every entry
    that contains the word or is contained in it (the entry equal to the
    word included, on top of the 2); the score recorded for a priority
    label is the sum of the 2s alone.  These are the scores that the
    context rules then adjust. *)
Theorem weighted_scores_formula : forall file query,
  let self := init file in
  let words := extract_words query in
  (forall label patterns,
   In (label, patterns) (category_patterns self) ->
   exists s,
     get label (score_table category_score (category_patterns self) words)
     = Some s /\
     (s == Qsum (map (fun w =>
                        (if mem w patterns then 2 else 0)
                        + Qsum (map (fun p =>
                                       if contains p w || contains w p
                                       then 1 # 2 else 0) patterns))
                     words))%Q) /\
  (forall label patterns,
   In (label, patterns) (priority_patterns self) ->
   exists s,
     get label (score_table priority_score (priority_patterns self) words)
     = Some s /\
     (s == Qsum (map (fun w => if mem w patterns then 2 else 0) words))%Q) /\
  (rule_based_classification (lower query) words = None ->
   classify_user_query self query = scoring_path self query /\
   adjusted_category_scores self query
   = apply_context_rules (lower query) words
       (score_table category_score (category_patterns self) words) /\
   adjusted_priority_scores self query
   = apply_priority_context (lower query) words (predicted_category self query)
       (score_table priority_score (priority_patterns self) words)).
Proof.
  intros file query self words.
  destruct (init_tables_ok file) as (Hc & Hp & _ & _).
  split; [|split].
  - intros label patterns Hin. exists (category_score patterns words). split.
    + now apply score_table_get.
    + apply category_score_formula.
  - intros label patterns Hin. exists (priority_score patterns words). split.
    + now apply score_table_get.
    + apply priority_score_formula.
  - intros Hrule. split; [|split; reflexivity].
    unfold classify_user_query. fold words. now rewrite Hrule.
Qed.

(** * Selection *)

Lemma Qgtb_lt : forall a b, Qgtb a b = true <-> (b < a)%Q.
Proof.
  intros a b. unfold Qgtb. rewrite negb_true_iff.
  split.
  - intros H. apply Qnot_le_lt. intros Hle.
    apply Qle_bool_iff in Hle. congruence.
  - intros H. destruct (Qle_bool a b) eqn:E; [|reflexivity].
    apply Qle_bool_iff in E. elim (Qlt_not_le _ _ H E).
Qed.

Lemma Qgtb_le : forall a b, Qgtb a b = false <-> (a <= b)%Q.
Proof.
  intros a b. unfold Qgtb. rewrite negb_false_iff. apply Qle_bool_iff.
Qed.

Lemma max_key_from_in : forall rest k v,
  max_key_from k v rest = k \/ In (max_key_from k v rest) (keys rest).
Proof.
  induction rest as [|[k' v'] r IH]; intros k v; simpl; [now left|].
  destruct (Qgtb v' v).
  - right. destruct (IH k' v') as [H|H]; [left; now rewrite H | now right].
  - destruct (IH k v); auto.
Qed.

(** The scan of [max]: everything before the current candidate is strictly
    smaller, everything between it and the unread rest is no greater. *)
Lemma max_scan : forall rest before k v mid,
  Forall (fun kv => (snd kv < v)%Q) before ->
  Forall (fun kv => (snd kv <= v)%Q) mid ->
  first_max (before ++ (k, v) :: mid ++ rest)
            (max_key_from k v rest) (max_value_from v (values rest)).
Proof.
  induction rest as [|[k' v'] r IH]; intros before k v mid Hb Hm.
  - simpl. rewrite app_nil_r. now exists before, mid.
  - cbn [max_key_from values map snd max_value_from].
    destruct (Qgtb v' v) eqn:E.
    + apply Qgtb_lt in E.
      replace (before ++ (k, v) :: mid ++ (k', v') :: r)
        with ((before ++ (k, v) :: mid) ++ (k', v') :: [] ++ r)
        by (now rewrite <- app_assoc).
      apply IH; [|constructor].
      apply Forall_app. split.
      * eapply Forall_impl; [|exact Hb]. intros kv H. simpl in H.
        eapply Qlt_trans; eassumption.
      * constructor; [exact E|].
        eapply Forall_impl; [|exact Hm]. intros kv H. simpl in H.
        eapply Qle_lt_trans; eassumption.
    + apply Qgtb_le in E.
      replace (before ++ (k, v) :: mid ++ (k', v') :: r)
        with (before ++ (k, v) :: (mid ++ [(k', v')]) ++ r)
        by (now rewrite <- app_assoc).
      apply IH; [assumption|].
      apply Forall_app. split; [assumption|]. now constructor.
Qed.

Lemma max_key_first_max : forall k v rest,
  first_max ((k, v) :: rest) (max_key_from k v rest)
            (max_value_from v (values rest)).
Proof. intros. apply (max_scan rest [] k v []); constructor. Qed.

Lemma max_key_all_zero : forall rest k,
  Forall (fun kv => snd kv = 0%Q) rest ->
  max_key_from k 0%Q rest = k /\ max_value_from 0%Q (values rest) = 0%Q.
Proof.
  induction rest as [|[k' v'] r IH]; intros k H; simpl; [auto|].
  inversion H as [|? ? Hv Hr]; subst. simpl in Hv. subst v'.
  change (Qgtb 0 0) with false. cbv iota. now apply IH.
Qed.

(** * Context rules *)

Lemma keys_boost_incl : forall l a d k,
  In k (keys (boost l a d)) -> k = l \/ In k (keys d).
Proof. intros l a d k. unfold boost. apply keys_set_incl. Qed.

Lemma boost_not_nil : forall l a d, boost l a d <> [].
Proof. intros. unfold boost. apply set_not_nil. Qed.

Lemma apply_context_rules_inv : forall (P : dict Q -> Prop),
  (forall l a d, In l CATEGORIES -> P d -> P (boost l a d)) ->
  forall ql words d, P d -> P (apply_context_rules ql words d).
Proof.
  intros P Hb ql words d Hd. unfold apply_context_rules.
  repeat match goal with
         | |- context [if ?c then _ else _] => destruct c
         end;
    repeat (apply Hb; [simpl; tauto|]); exact Hd.
Qed.

Lemma apply_priority_context_inv : forall (P : dict Q -> Prop),
  (forall l a d, In l ["urgent"; "high"] -> P d -> P (boost l a d)) ->
  forall ql words c d, P d -> P (apply_priority_context ql words c d).
Proof.
  intros P Hb ql words c d Hd. unfold apply_priority_context.
  repeat match goal with
         | |- context [if ?c then _ else _] => destruct c
         end;
    repeat (apply Hb; [simpl; tauto|]); exact Hd.
Qed.

Lemma category_score_keys : forall self query k,
  In k (keys (adjusted_category_scores self query)) ->
  In k CATEGORIES \/ In k (keys (category_patterns self)).
Proof.
  intros self query. unfold adjusted_category_scores.
  apply (apply_context_rules_inv
           (fun d => forall k, In k (keys d) ->
                     In k CATEGORIES \/ In k (keys (category_patterns self)))).
  - intros l a d Hl Hd k Hk. apply keys_boost_incl in Hk as [->|Hk]; auto.
  - intros k Hk. right. unfold score_table in Hk.
    apply (loop_keys_incl (fun p => category_score p (extract_words query)))
      in Hk as [[]|Hk].
    exact Hk.
Qed.

Lemma priority_score_keys : forall self query k,
  In k (keys (adjusted_priority_scores self query)) ->
  In k PRIORITIES \/ In k (keys (priority_patterns self)).
Proof.
  intros self query. unfold adjusted_priority_scores.
  apply (apply_priority_context_inv
           (fun d => forall k, In k (keys d) ->
                     In k PRIORITIES \/ In k (keys (priority_patterns self)))).
  - intros l a d Hl Hd k Hk. apply keys_boost_incl in Hk as [->|Hk]; [|auto].
    left. simpl in *. tauto.
  - intros k Hk. right. unfold score_table in Hk.
    apply (loop_keys_incl (fun p => priority_score p (extract_words query)))
      in Hk as [[]|Hk].
    exact Hk.
Qed.

Lemma priority_scores_not_nil : forall self query,
  priority_patterns self <> [] -> adjusted_priority_scores self query <> [].
Proof.
  intros self query H. unfold adjusted_priority_scores.
  apply (apply_priority_context_inv (fun d => d <> [])).
  - intros l a d _ _. apply boost_not_nil.
  - unfold score_table.
    apply (loop_not_nil (fun p => priority_score p (extract_words query))).
    now left.
Qed.

Lemma predicted_category_domain : forall self query,
  In (predicted_category self query) CATEGORIES \/
  In (predicted_category self query) (keys (category_patterns self)).
Proof.
  intros self query. unfold predicted_category.
  destruct (adjusted_category_scores self query) as [|[k v] rest] eqn:E.
  - left. simpl. tauto.
  - apply (category_score_keys self query). rewrite E. simpl.
    destruct (max_key_from_in rest k v) as [->|H]; auto.
Qed.

Lemma rule_results_in_domain : forall ql words c p,
  rule_based_classification ql words = Some (c, p) ->
  In c CATEGORIES /\ In p PRIORITIES.
Proof.
  intros ql words c p. unfold rule_based_classification.
  repeat match goal with
         | |- context [if ?b then _ else _] => destruct b
         end;
    intros [= <- <-] || discriminate; simpl; tauto.
Qed.

(** * Classification *)

Lemma build_patterns_defaults : forall self,
  training_data self = [] ->
  category_patterns (build_patterns self) = default_category_patterns /\
  priority_patterns (build_patterns self) = default_priority_patterns.
Proof. intros self H. unfold build_patterns. rewrite H. simpl. auto. Qed.

Lemma build_patterns_data : forall self,
  training_data (build_patterns self) = training_data self.
Proof.
  intros self. unfold build_patterns.
  destruct (training_data self) eqn:E; simpl; congruence.
Qed.

Lemma scoring_path_returns : forall self query,
  priority_patterns self <> [] ->
  exists p,
    scoring_path self query = Returned (predicted_category self query, p) /\
    (In p PRIORITIES \/ In p (keys (priority_patterns self))).
Proof.
  intros self query Hne. unfold scoring_path.
  pose proof (priority_scores_not_nil self query Hne) as Hs.
  pose proof (priority_score_keys self query) as Hk.
  destruct (adjusted_priority_scores self query) as [|[k v] rest]; [now elim Hs|].
  eexists. split; [reflexivity|].
  destruct (Qgtb _ _).
  - apply Hk. simpl. destruct (max_key_from_in rest k v) as [->|H]; auto.
  - left. simpl. tauto.
Qed.

(** C1, as the code has it.  For every state the constructor can build and
    every text, [classify_user_query] returns a pair and does not raise;
    the category is one of the four fixed labels or a key of the category
    pattern table, the priority one of the four fixed labels or a key of
    the priority pattern table.  So both are within the enumerations
    whenever the keys of the tables are, and in particular when the tables
    are the default ones (no training sample). *)
Theorem classify_total_known_labels : forall file query,
  let self := init file in
  exists c p,
    classify_user_query self query = Returned (c, p) /\
    (In c CATEGORIES \/ In c (keys (category_patterns self))) /\
    (In p PRIORITIES \/ In p (keys (priority_patterns self))) /\
    (incl (keys (category_patterns self)) CATEGORIES -> In c CATEGORIES) /\
    (incl (keys (priority_patterns self)) PRIORITIES -> In p PRIORITIES) /\
    (training_data self = [] -> In c CATEGORIES /\ In p PRIORITIES).
Proof.
  intros file query self.
  assert (Hdom : exists c p,
             classify_user_query self query = Returned (c, p) /\
             (In c CATEGORIES \/ In c (keys (category_patterns self))) /\
             (In p PRIORITIES \/ In p (keys (priority_patterns self)))).
  { unfold classify_user_query.
    destruct (rule_based_classification _ _) as [[c p]|] eqn:Hrule.
    - apply rule_results_in_domain in Hrule as [Hc Hp].
      exists c, p. auto.
    - destruct (init_tables_ok file) as (_ & _ & _ & Hne).
      destruct (scoring_path_returns self query Hne) as (p & Hret & Hp).
      exists (predicted_category self query), p.
      split; [exact Hret|]. split; [apply predicted_category_domain | exact Hp]. }
  destruct Hdom as (c & p & Hret & Hc & Hp).
  assert (Hci : incl (keys (category_patterns self)) CATEGORIES -> In c CATEGORIES).
  { intros Hincl. destruct Hc as [Hc|Hc]; auto. }
  assert (Hpi : incl (keys (priority_patterns self)) PRIORITIES -> In p PRIORITIES).
  { intros Hincl. destruct Hp as [Hp|Hp]; auto. }
  exists c, p. repeat split; try assumption.
  - apply Hci. subst self. unfold init in *.
    rewrite build_patterns_data in H.
    destruct (build_patterns_defaults _ H) as [-> _].
    intros k Hk. simpl in *. tauto.
  - apply Hpi. subst self. unfold init in *.
    rewrite build_patterns_data in H.
    destruct (build_patterns_defaults _ H) as [_ ->].
    intros k Hk. simpl in *. tauto.
Qed.

(** Labels outside the enumerations can be returned: a corpus that uses
    such labels yields a service that answers with them. *)
Lemma classify_out_of_domain :
  let self := init (CsvLines ["query,category,priority";
                              "printer printer,Library,whenever"]) in
  classify_user_query self "printer" = Returned ("Library", "whenever") /\
  ~ In "Library" CATEGORIES /\ ~ In "whenever" PRIORITIES.
Proof.
  split; [vm_compute; reflexivity|].
  split; simpl; intuition discriminate.
Qed.

Lemma context_rules_empty_text : forall words d,
  apply_context_rules "" words d = d.
Proof. reflexivity. Qed.

Lemma priority_context_empty_text : forall words c d,
  apply_priority_context "" words c d = d.
Proof.
  intros. unfold apply_priority_context.
  change (any_in ["urgent"; "emergency"; "immediately"; "asap"] "") with false.
  change (any_in ["broken"; "not working"; "damaged"] "") with false.
  change (any_in ["important"; "needed"; "required"; "missing"] "") with false.
  change (any_in ["exam"; "grade"; "certificate"] "") with false.
  change (any_in ["water"; "electricity"; "elevator"] "") with false.
  change (any_in ["login"; "portal"; "wifi"] "") with false.
  now rewrite !andb_false_r.
Qed.

Lemma classify_empty_text : forall self,
  tables_ok self ->
  exists first others,
    keys (category_patterns self) = first :: others /\
    classify_user_query self "" = Returned (first, "medium").
Proof.
  intros self (Hc & Hp & Hcne & Hpne).
  unfold classify_user_query.
  change (rule_based_classification (lower "") (extract_words "")) with
    (@None (string * string)).
  unfold scoring_path, adjusted_priority_scores, predicted_category,
    adjusted_category_scores.
  change (lower "") with "". change (extract_words "") with (@nil string).
  rewrite context_rules_empty_text, priority_context_empty_text.
  rewrite !score_table_as_map by assumption.
  destruct (category_patterns self) as [|[k0 p0] crest]; [now elim Hcne|].
  destruct (priority_patterns self) as [|[q0 r0] prest]; [now elim Hpne|].
  exists k0, (keys crest). split; [reflexivity|].
  cbn [map fst snd].
  change (category_score p0 []) with 0%Q.
  change (priority_score r0 []) with 0%Q.
  destruct (max_key_all_zero
              (map (fun lp => (fst lp, category_score (snd lp) [])) crest) k0)
    as [-> _].
  { apply Forall_forall. intros kv Hin. apply in_map_iff in Hin as (x & <- & _).
    reflexivity. }
  destruct (max_key_all_zero
              (map (fun lp => (fst lp, priority_score (snd lp) [])) prest) q0)
    as [_ ->].
  { apply Forall_forall. intros kv Hin. apply in_map_iff in Hin as (x & <- & _).
    reflexivity. }
  reflexivity.
Qed.

(** C4, as the code has it.  On the scoring path the category is the first
    label, in the insertion order of the score dict, that carries the
    maximum adjusted score; "Technical" is the answer only when the score
    dict is empty, which no service built by the constructor allows.  The
    priority is the first label carrying the maximum
    adjusted score when that maximum is strictly positive, and "medium"
    otherwise.  For the empty text every score is zero, so the result is
    the first key of the category table with "medium": that is
    (Technical, medium) with the default tables. *)
Theorem selection_policy :
  (forall self query,
     rule_based_classification (lower query) (extract_words query) = None ->
     priority_patterns self <> [] ->
     exists c p,
       classify_user_query self query = Returned (c, p) /\
       (adjusted_category_scores self query = [] -> c = "Technical") /\
       (adjusted_category_scores self query <> [] ->
        exists v, first_max (adjusted_category_scores self query) c v) /\
       exists k m,
         first_max (adjusted_priority_scores self query) k m /\
         ((0 < m)%Q -> p = k) /\ ((m <= 0)%Q -> p = "medium")) /\
  (forall file, exists first others,
     keys (category_patterns (init file)) = first :: others /\
     classify_user_query (init file) "" = Returned (first, "medium")) /\
  (forall file,
     training_data (init file) = [] ->
     classify_user_query (init file) "" = Returned ("Technical", "medium")) /\
  (forall file query, adjusted_category_scores (init file) query <> []).
Proof.
  split; [|split; [|split]].
  - intros self query Hrule Hne.
    unfold classify_user_query. rewrite Hrule.
    unfold scoring_path.
    pose proof (priority_scores_not_nil self query Hne) as Hs.
    destruct (adjusted_priority_scores self query) as [|[k v] rest] eqn:Ep;
      [now elim Hs|].
    eexists _, _. split; [reflexivity|].
    split; [|split].
    + unfold predicted_category. now intros ->.
    + unfold predicted_category.
      destruct (adjusted_category_scores self query) as [|[kc vc] crest];
        [intros H; now elim H|].
      intros _. eexists. apply max_key_first_max.
    + exists (max_key_from k v rest), (max_value_from v (values rest)).
      split; [apply max_key_first_max|].
      destruct (Qgtb (max_value_from v (values rest)) 0) eqn:E.
      * apply Qgtb_lt in E. split; [reflexivity|].
        intros Hle. elim (Qlt_not_le _ _ E Hle).
      * apply Qgtb_le in E. split; [|reflexivity].
        intros Hlt. elim (Qlt_not_le _ _ Hlt E).
  - intros file. apply classify_empty_text, init_tables_ok.
  - intros file H. unfold init in *. rewrite build_patterns_data in H.
    unfold build_patterns. rewrite H. reflexivity.
  - intros file query. unfold adjusted_category_scores.
    apply (apply_context_rules_inv (fun d => d <> [])).
    + intros l a d _ _. apply boost_not_nil.
    + unfold score_table.
      apply (loop_not_nil (fun p => category_score p (extract_words query))).
      left. now destruct (init_tables_ok file) as (_ & _ & H & _).
Qed.

(** With every category score at zero the result is the first key of the
    category table, which need not be "Technical". *)
Lemma zero_scores_do_not_default_to_technical :
  let self := init (CsvLines ["query,category,priority";
                              "slow printer,Academic,low"]) in
  adjusted_category_scores self "" = [("Academic", 0%Q)] /\
  classify_user_query self "" = Returned ("Academic", "medium").
Proof. split; vm_compute; reflexivity. Qed.

Lemma boost_absent_label : forall l a d,
  get l d = None -> boost l a d = d ++ [(l, (0 + a)%Q)].
Proof.
  intros l a d H. unfold boost, get_default. rewrite H. now apply set_fresh.
Qed.

(** C9. A boost on a label that has no score yet appends an entry for it
    (starting from 0), so labels that are not keys of the corpus-built
    tables enter the score dicts; on the scoring path [classify_user_query]
    then returns such labels: each of the four categories, and the
    priorities urgent and high, for a service whose tables only have the
    keys "Library" and "whenever". *)
Theorem context_rules_add_labels :
  (forall l a d, get l d = None -> boost l a d = d ++ [(l, (0 + a)%Q)]) /\
  let self := init (CsvLines ["query,category,priority";
                              "printer printer,Library,whenever"]) in
  keys (category_patterns self) = ["Library"] /\
  keys (priority_patterns self) = ["whenever"] /\
  Forall (fun q => rule_based_classification (lower q) (extract_words q) = None)
         ["hostel urgent"; "it is not working"; "system asap";
          "lecture required"] /\
  adjusted_category_scores self "hostel urgent"
  = [("Library", 0%Q); ("Hostel/Mess", 3%Q)] /\
  adjusted_priority_scores self "hostel urgent"
  = [("whenever", 0%Q); ("urgent", 5%Q)] /\
  classify_user_query self "hostel urgent" = Returned ("Hostel/Mess", "urgent") /\
  classify_user_query self "it is not working"
  = Returned ("Maintenance", "urgent") /\
  classify_user_query self "system asap" = Returned ("Technical", "urgent") /\
  classify_user_query self "lecture required" = Returned ("Academic", "high").
Proof.
  split; [exact boost_absent_label|].
  repeat split; try (vm_compute; reflexivity).
  repeat constructor.
Qed.

(** * Stable sorting by decreasing count *)

Lemma insert_desc_perm : forall x l, Permutation (x :: l) (insert_desc x l).
Proof.
  induction l as [|y r IH]; simpl; [reflexivity|].
  destruct (snd x <? snd y); [|reflexivity].
  rewrite perm_swap. now constructor.
Qed.

Lemma sorted_desc_perm : forall l, Permutation l (sorted_desc l).
Proof.
  induction l as [|x l IH]; simpl; [constructor|].
  rewrite <- insert_desc_perm. now constructor.
Qed.

Lemma insert_desc_sorted : forall x l,
  StronglySorted by_count_desc l ->
  StronglySorted by_count_desc (insert_desc x l).
Proof.
  induction l as [|y r IH]; intros Hs; simpl.
  - repeat constructor.
  - inversion Hs as [|? ? Hr Hy]; subst.
    destruct (snd x <? snd y) eqn:E.
    + apply Nat.ltb_lt in E. constructor; [auto|].
      eapply Permutation_Forall; [apply insert_desc_perm|].
      constructor; [unfold by_count_desc; lia | assumption].
    + apply Nat.ltb_ge in E. constructor; [assumption|].
      constructor; [exact E|].
      eapply Forall_impl; [|exact Hy].
      unfold by_count_desc. intros z Hz. lia.
Qed.

Lemma sorted_desc_sorted : forall l, StronglySorted by_count_desc (sorted_desc l).
Proof.
  induction l as [|x l IH]; simpl; [constructor|].
  now apply insert_desc_sorted.
Qed.

Lemma insert_desc_filter : forall c x l,
  filter (fun wc => snd wc =? c) (insert_desc x l)
  = filter (fun wc => snd wc =? c) (x :: l).
Proof.
  induction l as [|y r IH]; [reflexivity|].
  cbn [insert_desc]. destruct (snd x <? snd y) eqn:E; [|reflexivity].
  apply Nat.ltb_lt in E. cbn [filter] in *. rewrite IH.
  destruct (Nat.eqb_spec (snd x) c), (Nat.eqb_spec (snd y) c);
    try reflexivity; lia.
Qed.

Lemma sorted_desc_filter : forall c l,
  filter (fun wc => snd wc =? c) (sorted_desc l)
  = filter (fun wc => snd wc =? c) l.
Proof.
  induction l as [|x l IH]; [reflexivity|].
  cbn [sorted_desc fold_right]. fold (sorted_desc l).
  rewrite insert_desc_filter. cbn [filter]. now rewrite IH.
Qed.

Lemma sorted_desc_stable : forall l, stable_desc l (sorted_desc l).
Proof.
  intros l. split; [apply sorted_desc_perm|].
  split; [apply sorted_desc_sorted|].
  intros c. apply sorted_desc_filter.
Qed.

Lemma filter_head_in : forall {A} (f : A -> bool) l x r,
  filter f l = x :: r -> In x l.
Proof.
  intros A f l x r H.
  assert (Hin : In x (filter f l)) by (rewrite H; now left).
  now apply filter_In in Hin.
Qed.

(** Two listings that are both sorted by decreasing count and keep, for
    every count, the same entries in the same order are equal: a stable
    sort has one possible result, whatever the algorithm. *)
Lemma sorted_by_filters_unique : forall l1 l2,
  StronglySorted by_count_desc l1 ->
  StronglySorted by_count_desc l2 ->
  (forall c, filter (fun wc => snd wc =? c) l1
             = filter (fun wc => snd wc =? c) l2) ->
  l1 = l2.
Proof.
  induction l1 as [|a l1 IH]; intros l2 H1 H2 Hf.
  - destruct l2 as [|b l2]; [reflexivity|].
    specialize (Hf (snd b)). simpl in Hf. rewrite Nat.eqb_refl in Hf.
    discriminate Hf.
  - destruct l2 as [|b l2].
    + specialize (Hf (snd a)). simpl in Hf. rewrite Nat.eqb_refl in Hf.
      discriminate Hf.
    + inversion H1 as [|? ? Hs1 Ha]; subst.
      inversion H2 as [|? ? Hs2 Hb]; subst.
      rewrite Forall_forall in Ha, Hb. unfold by_count_desc in Ha, Hb.
      assert (Hab : snd a = snd b).
      { pose proof (Hf (snd a)) as Fa. pose proof (Hf (snd b)) as Fb.
        cbn [filter] in Fa, Fb. rewrite Nat.eqb_refl in Fa, Fb.
        destruct (Nat.eqb_spec (snd b) (snd a)) as [E|Nba]; [now symmetry|].
        destruct (Nat.eqb_spec (snd a) (snd b)) as [E|Nab]; [assumption|].
        symmetry in Fa. apply filter_head_in in Fa. apply filter_head_in in Fb.
        apply Hb in Fa. apply Ha in Fb. lia. }
      assert (a = b).
      { specialize (Hf (snd a)). cbn [filter] in Hf.
        rewrite Nat.eqb_refl, <- Hab, Nat.eqb_refl in Hf. congruence. }
      subst b. f_equal. apply IH; try assumption.
      intros c. specialize (Hf c). cbn [filter] in Hf.
      destruct (snd a =? c); congruence.
Qed.

Lemma stable_desc_unique : forall l l1 l2,
  stable_desc l l1 -> stable_desc l l2 -> l1 = l2.
Proof.
  intros l l1 l2 (_ & S1 & F1) (_ & S2 & F2).
  apply sorted_by_filters_unique; try assumption.
  intros c. now rewrite F1, F2.
Qed.

Lemma StronglySorted_firstn : forall {A} (R : A -> A -> Prop) n l,
  StronglySorted R l -> StronglySorted R (firstn n l).
Proof.
  intros A R. induction n as [|n IH]; intros l Hs; [constructor|].
  destruct l as [|x l]; [constructor|].
  inversion Hs as [|? ? Hl Hx]; subst. simpl.
  constructor; [auto|].
  rewrite Forall_forall in *. intros y Hy. apply Hx.
  rewrite <- (firstn_skipn n l). apply in_or_app. now left.
Qed.

Lemma StronglySorted_filter : forall {A} (R : A -> A -> Prop) f l,
  StronglySorted R l -> StronglySorted R (filter f l).
Proof.
  intros A R f. induction l as [|x l IH]; intros Hs; [constructor|].
  inversion Hs as [|? ? Hl Hx]; subst. simpl.
  destruct (f x); [|auto].
  constructor; [auto|].
  rewrite Forall_forall in *. intros y Hy. apply Hx.
  now apply filter_In in Hy.
Qed.

Lemma StronglySorted_map_fst : forall (g : string -> nat) l,
  Forall (fun wc => snd wc = g (fst wc)) l ->
  StronglySorted by_count_desc l ->
  StronglySorted (fun a b => g b <= g a) (map fst l).
Proof.
  induction l as [|x l IH]; intros Hg Hs; [constructor|].
  inversion Hs as [|? ? Hl Hx]; subst.
  inversion Hg as [|? ? Hgx Hgl]; subst. simpl.
  constructor; [auto|].
  rewrite Forall_forall in *. intros w Hw.
  apply in_map_iff in Hw as (y & <- & Hy).
  rewrite <- Hgx, <- (Hgl y Hy). now apply Hx.
Qed.

(** * Word tallies *)

Lemma mem_In : forall w l, mem w l = true <-> In w l.
Proof.
  intros w l. unfold mem. rewrite existsb_exists. split.
  - intros (x & Hin & E). apply String.eqb_eq in E. now subst.
  - intros H. exists w. split; [assumption | apply String.eqb_refl].
Qed.

Lemma mem_false : forall w l, mem w l = false <-> ~ In w l.
Proof.
  intros w l. rewrite <- mem_In. destruct (mem w l); split; congruence.
Qed.

Lemma mem_app : forall w l l', mem w (l ++ l') = mem w l || mem w l'.
Proof. intros. unfold mem. apply existsb_app. Qed.

Lemma first_occurrences_In : forall w l, In w (first_occurrences l) <-> In w l.
Proof.
  induction l as [|a r IH]; simpl; [tauto|].
  rewrite filter_In, IH, negb_true_iff, String.eqb_neq.
  destruct (string_dec a w) as [->|Hne]; [tauto|].
  split; [tauto|]. intros [H|H]; [contradiction|]. right. split; congruence.
Qed.

Lemma first_occurrences_NoDup : forall l, NoDup (first_occurrences l).
Proof.
  induction l as [|a r IH]; simpl; constructor.
  - rewrite filter_In, String.eqb_refl. simpl. intros [_ H]. discriminate H.
  - now apply NoDup_filter.
Qed.

Lemma first_occurrences_snoc : forall w l,
  first_occurrences (l ++ [w])
  = if mem w l then first_occurrences l else first_occurrences l ++ [w].
Proof.
  induction l as [|a r IH]; [reflexivity|].
  cbn [app first_occurrences]. rewrite IH.
  unfold mem. cbn [existsb]. fold (mem w r).
  destruct (mem w r); [now rewrite orb_true_r|].
  rewrite orb_false_r, filter_app. cbn [filter].
  destruct (String.eqb w a); cbn [negb]; [now rewrite app_nil_r | reflexivity].
Qed.

Lemma frequency_snoc : forall l w x,
  frequency (l ++ [w]) x = frequency l x + (if String.eqb x w then 1 else 0).
Proof.
  intros l w x. unfold frequency. rewrite count_occ_app. simpl.
  destruct (string_dec w x) as [->|Hne].
  - now rewrite String.eqb_refl.
  - destruct (String.eqb_spec x w); [now subst | reflexivity].
Qed.

Lemma frequency_absent : forall l w, mem w l = false -> frequency l w = 0.
Proof. intros l w H. apply count_occ_not_In. now apply mem_false. Qed.

Lemma keys_set : forall {V} k (v : V) d,
  keys (set k v d) = if has_key k d then keys d else keys d ++ [k].
Proof.
  intros V k v. unfold has_key.
  induction d as [|[k0 v0] r IH]; simpl; [reflexivity|].
  destruct (String.eqb k0 k); simpl; [reflexivity|].
  rewrite IH. now destruct (get k r).
Qed.

Lemma dict_ext : forall {V} (g : string -> V) d,
  NoDup (keys d) ->
  (forall k, In k (keys d) -> get k d = Some (g k)) ->
  d = map (fun k => (k, g k)) (keys d).
Proof.
  intros V g. induction d as [|[k0 v0] r IH]; intros Hnd Hget; [reflexivity|].
  inversion Hnd as [|? ? Hnotin Hnd']; subst. simpl.
  pose proof (Hget k0 (or_introl eq_refl)) as H0.
  simpl in H0. rewrite String.eqb_refl in H0. injection H0 as ->.
  f_equal. apply IH; [assumption|].
  intros k Hk. specialize (Hget k (or_intror Hk)). simpl in Hget.
  destruct (String.eqb_spec k0 k) as [->|_]; [contradiction | exact Hget].
Qed.

Lemma word_counts_keys : forall l, keys (word_counts l) = first_occurrences l.
Proof.
  intros l. unfold word_counts, keys. rewrite map_map. simpl. apply map_id.
Qed.

Lemma word_counts_get : forall l x,
  get x (word_counts l) = if mem x l then Some (frequency l x) else None.
Proof.
  intros l x. destruct (mem x l) eqn:E.
  - apply In_get.
    + rewrite word_counts_keys. apply first_occurrences_NoDup.
    + unfold word_counts.
      apply (in_map (fun w => (w, frequency l w))).
      apply first_occurrences_In. now apply mem_In.
  - apply get_None_keys. rewrite word_counts_keys, first_occurrences_In.
    now apply mem_false.
Qed.

(** One step of the tally: [words[w] = words.get(w, 0) + 1]. *)
Lemma word_counts_snoc : forall l w,
  set w (get_default w 0 (word_counts l) + 1) (word_counts l)
  = word_counts (l ++ [w]).
Proof.
  intros l w.
  set (d' := set w (get_default w 0 (word_counts l) + 1) (word_counts l)).
  assert (Hkeys : keys d' = first_occurrences (l ++ [w])).
  { unfold d'. rewrite keys_set, first_occurrences_snoc, word_counts_keys.
    unfold has_key. rewrite word_counts_get. now destruct (mem w l). }
  rewrite (dict_ext (frequency (l ++ [w])) d').
  - unfold word_counts. now rewrite Hkeys.
  - rewrite Hkeys. apply first_occurrences_NoDup.
  - intros k Hk. rewrite Hkeys in Hk. apply -> first_occurrences_In in Hk.
    unfold d'. rewrite frequency_snoc.
    destruct (String.eqb_spec k w) as [->|Hne].
    + rewrite get_set_same. unfold get_default. rewrite word_counts_get.
      destruct (mem w l) eqn:E; [reflexivity|].
      now rewrite (frequency_absent _ _ E).
    + rewrite get_set_other by congruence.
      rewrite word_counts_get, Nat.add_0_r.
      apply in_app_or in Hk as [Hk|[Hk|[]]]; [|congruence].
      apply mem_In in Hk. now rewrite Hk.
Qed.

Lemma count_words_get : forall l0 ws t l,
  get l0 t = Some (word_counts l) ->
  get l0 (fold_left (fun t w => count_word l0 w t) ws t)
  = Some (word_counts (l ++ ws)) /\
  forall l', l' <> l0 ->
    get l' (fold_left (fun t w => count_word l0 w t) ws t) = get l' t.
Proof.
  intros l0. induction ws as [|w ws IH]; intros t l Ht.
  - simpl. rewrite app_nil_r. auto.
  - cbn [fold_left].
    assert (Hstep : get l0 (count_word l0 w t) = Some (word_counts (l ++ [w]))).
    { unfold count_word, get_default. rewrite get_set_same, Ht.
      f_equal. apply word_counts_snoc. }
    destruct (IH _ _ Hstep) as [Hsame Hother].
    split.
    + rewrite Hsame, <- app_assoc. reflexivity.
    + intros l' Hne. rewrite (Hother l' Hne).
      unfold count_word. apply get_set_other. congruence.
Qed.

Lemma occurrences_app : forall label_of l d1 d2,
  occurrences label_of l (d1 ++ d2)
  = occurrences label_of l d1 ++ occurrences label_of l d2.
Proof. intros. unfold occurrences. apply flat_map_app. Qed.

Lemma occurrences_absent : forall label_of l data,
  mem l (map label_of data) = false -> occurrences label_of l data = [].
Proof.
  intros label_of l. induction data as [|item data IH]; intros H; [reflexivity|].
  unfold mem in H. cbn [map existsb] in H.
  apply orb_false_iff in H as [Hi Hd].
  unfold occurrences. cbn [flat_map].
  rewrite String.eqb_sym, Hi. simpl. now apply IH.
Qed.

(** The invariant of the counting loop: after the samples [data], the table
    holds, for each label seen, the tally of the words counted under it. *)
Lemma count_item_for_get : forall label_of t data item,
  (forall l, get l t =
             if mem l (map label_of data)
             then Some (word_counts (occurrences label_of l data)) else None) ->
  forall l, get l (count_item_for label_of t item) =
            if mem l (map label_of (data ++ [item]))
            then Some (word_counts (occurrences label_of l (data ++ [item])))
            else None.
Proof.
  intros label_of t data item Hinv l.
  set (l0 := label_of item).
  assert (Hens : get l0 (ensure_label l0 t)
                 = Some (word_counts (occurrences label_of l0 data))).
  { unfold ensure_label, has_key. pose proof (Hinv l0) as H0.
    destruct (mem l0 (map label_of data)) eqn:E.
    - now rewrite H0.
    - rewrite H0, get_set_same, (occurrences_absent _ _ _ E). reflexivity. }
  destruct (count_words_get l0 (extract_words (query item)) _ _ Hens)
    as [Hsame Hother].
  unfold count_item_for. fold l0.
  rewrite map_app, mem_app, occurrences_app.
  unfold mem at 2. cbn [map existsb]. fold l0. rewrite orb_false_r.
  unfold occurrences at 2. cbn [flat_map]. fold l0. rewrite app_nil_r.
  destruct (String.eqb_spec l l0) as [->|Hne].
  - rewrite orb_true_r, String.eqb_refl. exact Hsame.
  - rewrite orb_false_r, (Hother l Hne).
    destruct (String.eqb_spec l0 l) as [E|_]; [now elim Hne|].
    rewrite app_nil_r.
    unfold ensure_label. destruct (has_key l0 t).
    + apply Hinv.
    + rewrite get_set_other by congruence. apply Hinv.
Qed.

Lemma count_loop_get : forall label_of data l,
  get l (fold_left (count_item_for label_of) data [])
  = if mem l (map label_of data)
    then Some (word_counts (occurrences label_of l data)) else None.
Proof.
  intros label_of data. induction data as [|item data IH] using rev_ind.
  - reflexivity.
  - intros l. rewrite fold_left_app. cbn [fold_left].
    now apply count_item_for_get.
Qed.

(** * The pattern builder *)

Lemma in_firstn : forall {A} n (l : list A) x, In x (firstn n l) -> In x l.
Proof.
  intros A n l x H. rewrite <- (firstn_skipn n l). apply in_or_app. now left.
Qed.

Lemma NoDup_map_firstn : forall {A B} (f : A -> B) n l,
  NoDup (map f l) -> NoDup (map f (firstn n l)).
Proof.
  intros A B f. induction n as [|n IH]; intros l H; [constructor|].
  destruct l as [|x l]; [constructor|].
  simpl in *. inversion H as [|? ? Hnotin Hnd]; subst.
  constructor; [|auto].
  intros Hin. apply Hnotin. apply in_map_iff in Hin as (y & E & Hy).
  apply in_map_iff. exists y. split; [assumption | now apply in_firstn in Hy].
Qed.

Lemma NoDup_map_filter : forall {A B} (f : A -> B) p l,
  NoDup (map f l) -> NoDup (map f (filter p l)).
Proof.
  intros A B f p. induction l as [|x l IH]; intros H; [constructor|].
  simpl in *. inversion H as [|? ? Hnotin Hnd]; subst.
  destruct (p x); [|auto].
  simpl. constructor; [|auto].
  intros Hin. apply Hnotin. apply in_map_iff in Hin as (y & E & Hy).
  apply in_map_iff. exists y. split; [assumption | now apply filter_In in Hy].
Qed.

Lemma top_words_listing : forall n occ,
  top_listing n occ (top_words n (word_counts occ)).
Proof.
  intros n occ. exists (sorted_desc (word_counts occ)).
  pose proof (sorted_desc_perm (word_counts occ)) as Hperm.
  assert (Hfreq : Forall (fun wc => snd wc = frequency occ (fst wc))
                         (sorted_desc (word_counts occ))).
  { eapply Permutation_Forall; [exact Hperm|].
    unfold word_counts. apply Forall_forall. intros wc Hin.
    apply in_map_iff in Hin as (w & <- & _). reflexivity. }
  split; [apply sorted_desc_stable|].
  split; [reflexivity|].
  split.
  { unfold top_words. rewrite length_map.
    etransitivity; [apply filter_length_le | apply firstn_le_length]. }
  split.
  { unfold top_words. apply NoDup_map_filter, NoDup_map_firstn.
    eapply Permutation_NoDup; [apply Permutation_map, Hperm|].
    fold (keys (word_counts occ)). rewrite word_counts_keys.
    apply first_occurrences_NoDup. }
  split.
  { intros w Hw. unfold top_words in Hw.
    apply in_map_iff in Hw as ([w' c] & E & Hin). simpl in E. subst w'.
    apply filter_In in Hin as [Hin Hc]. apply in_firstn in Hin.
    rewrite Forall_forall in Hfreq. specialize (Hfreq _ Hin). simpl in *.
    apply Nat.ltb_lt in Hc. lia. }
  unfold top_words. apply StronglySorted_map_fst.
  - apply Forall_forall. intros wc Hin.
    apply filter_In in Hin as [Hin _]. apply in_firstn in Hin.
    rewrite Forall_forall in Hfreq. now apply Hfreq.
  - apply StronglySorted_filter, StronglySorted_firstn, sorted_desc_sorted.
Qed.

Lemma built_entry : forall label_of n data l pats,
  In (l, pats) (build_table n (fold_left (count_item_for label_of) data [])) ->
  In l (map label_of data) /\
  pats = top_words n (word_counts (occurrences label_of l data)).
Proof.
  intros label_of n data l pats Hin.
  assert (Hnd : NoDup (keys (fold_left (count_item_for label_of) data [])))
    by (apply count_loop_NoDup; constructor).
  rewrite build_table_as_map in Hin by assumption.
  apply in_map_iff in Hin as ([l' words] & E & Hin).
  simpl in E. injection E as -> <-.
  apply (In_get _ _ _ Hnd) in Hin. rewrite count_loop_get in Hin.
  destruct (mem l (map label_of data)) eqn:Em; [|discriminate].
  injection Hin as <-. split; [now apply mem_In | reflexivity].
Qed.

Lemma built_label : forall label_of n data l,
  In l (map label_of data) ->
  In l (keys (build_table n (fold_left (count_item_for label_of) data []))).
Proof.
  intros label_of n data l Hin.
  assert (Hnd : NoDup (keys (fold_left (count_item_for label_of) data [])))
    by (apply count_loop_NoDup; constructor).
  rewrite build_table_as_map by assumption.
  unfold keys. rewrite map_map. simpl.
  apply mem_In in Hin. pose proof (count_loop_get label_of data l) as Hget.
  rewrite Hin in Hget. now apply get_Some_keys in Hget.
Qed.

(** C7. For a non-empty list of training samples, each label of the built
    category table is a category label of the corpus and its pattern list
    is the top-50 listing of the words counted under that label: the first
    50 entries of the tally sorted by decreasing frequency, equal
    frequencies in first-counted order, without the words counted once;
    likewise with 30 for the priority table.  So a category list has at
    most 50 entries and a priority list at most 30, whatever the size of
    the corpus, and every label of the corpus has its list. *)
Theorem built_tables_top_words : forall self,
  training_data self <> [] ->
  let data := training_data self in
  let built := build_patterns self in
  (forall label pats,
     In (label, pats) (category_patterns built) ->
     In label (map category data) /\
     top_listing 50 (occurrences category label data) pats /\
     List.length pats <= 50) /\
  (forall label pats,
     In (label, pats) (priority_patterns built) ->
     In label (map priority data) /\
     top_listing 30 (occurrences priority label data) pats /\
     List.length pats <= 30) /\
  (forall label, In label (map category data) ->
                 In label (keys (category_patterns built))) /\
  (forall label, In label (map priority data) ->
                 In label (keys (priority_patterns built))).
Proof.
  intros self Hne data built. subst data built.
  unfold build_patterns.
  destruct (training_data self) as [|item data] eqn:E; [now elim Hne|].
  unfold count_all. rewrite count_all_split. cbn [category_patterns
    priority_patterns fst snd].
  repeat split.
  - now apply built_entry in H.
  - apply built_entry in H as [_ ->]. apply top_words_listing.
  - apply built_entry in H as [_ ->].
    destruct (top_words_listing 50 (occurrences category label (item :: data)))
      as (_ & _ & _ & Hlen & _). exact Hlen.
  - now apply built_entry in H.
  - apply built_entry in H as [_ ->]. apply top_words_listing.
  - apply built_entry in H as [_ ->].
    destruct (top_words_listing 30 (occurrences priority label (item :: data)))
      as (_ & _ & _ & Hlen & _). exact Hlen.
  - intros label Hin. now apply built_label.
  - intros label Hin. now apply built_label.
Qed.

(** * The corpus loader *)

Lemma load_lines_data : forall lines self,
  training_data (fold_left append_sample lines self)
  = training_data self
    ++ flat_map (fun line => match parse_line line with
                             | Some item => [item]
                             | None => []
                             end) lines.
Proof.
  induction lines as [|line lines IH]; intros self; simpl.
  - now rewrite app_nil_r.
  - rewrite IH. unfold append_sample.
    destruct (parse_line line); simpl; [now rewrite <- app_assoc | reflexivity].
Qed.

Lemma parse_line_well_formed : forall line,
  (well_formed line = true -> exists item, parse_line line = Some item) /\
  (well_formed line = false -> parse_line line = None).
Proof.
  intros line. unfold well_formed, parse_line.
  destruct (split_on "," 2 (strip isspace line)) as [|p0 [|p1 [|p2 r]]];
    simpl; split; intros H; try discriminate; try reflexivity.
  eexists. reflexivity.
Qed.

Lemma skipped_lines_load_nothing : forall lines,
  flat_map (fun line => match parse_line line with
                        | Some item => [item]
                        | None => []
                        end) lines
  = flat_map (fun line => match parse_line line with
                          | Some item => [item]
                          | None => []
                          end) (filter well_formed lines).
Proof.
  induction lines as [|line lines IH]; [reflexivity|].
  cbn [flat_map filter]. destruct (well_formed line) eqn:E.
  - cbn [flat_map]. now rewrite IH.
  - rewrite (proj2 (parse_line_well_formed line) E). exact IH.
Qed.

Lemma split_on_from_field : forall sep a n cur rest,
  all_chars (fun c => negb (Ascii.eqb c sep)) a = true ->
  split_on_from sep (S n) cur (a ++ String sep rest)
  = (cur ++ a)%string :: split_on_from sep n EmptyString rest.
Proof.
  intros sep. induction a as [|c a IH]; intros n cur rest Ha.
  - simpl. now rewrite Ascii.eqb_refl, str_app_nil_r.
  - simpl in Ha. apply andb_true_iff in Ha as [Hc Ha].
    apply negb_true_iff in Hc. simpl. rewrite Hc.
    rewrite IH by assumption. now rewrite str_app_assoc.
Qed.

Lemma split_on_two_separators : forall sep a b c,
  all_chars (fun x => negb (Ascii.eqb x sep)) a = true ->
  all_chars (fun x => negb (Ascii.eqb x sep)) b = true ->
  split_on sep 2 (a ++ String sep (b ++ String sep c)) = [a; b; c].
Proof.
  intros sep a b c Ha Hb. unfold split_on.
  rewrite split_on_from_field by assumption.
  rewrite split_on_from_field by assumption.
  simpl. now destruct c.
Qed.

(** C8. The loader ignores the first line and loads, in order, one sample
    for every later line with at least three comma-separated parts; a line
    with fewer parts loads nothing and the lines after it are still read.
    When the file is missing or unreadable, or no sample was loaded, the
    constructor ends with both pattern tables equal to the default
    dictionaries of the specification; the loader and the constructor are
    total, no failure reaches the caller. *)
Theorem corpus_loading_contract :
  (forall header lines,
     training_data (load_csv_data (CsvLines (header :: lines)) empty_service)
     = flat_map (fun line => match parse_line line with
                             | Some item => [item]
                             | None => []
                             end) (filter well_formed lines)) /\
  (forall line,
     (well_formed line = true -> exists item, parse_line line = Some item) /\
     (well_formed line = false -> parse_line line = None)) /\
  (forall header before bad after,
     well_formed bad = false ->
     load_csv_data (CsvLines (header :: before ++ bad :: after)) empty_service
     = load_csv_data (CsvLines (header :: before ++ after)) empty_service) /\
  (forall file,
     training_data (load_csv_data file empty_service) = [] ->
     category_patterns (init file) = category_defaults /\
     priority_patterns (init file) = priority_defaults) /\
  training_data (load_csv_data CsvMissing empty_service) = [] /\
  training_data (load_csv_data CsvUnreadable empty_service) = [] /\
  training_data (load_csv_data (CsvLines []) empty_service) = [].
Proof.
  split.
  { intros header lines. simpl. rewrite load_lines_data. simpl.
    apply skipped_lines_load_nothing. }
  split; [exact parse_line_well_formed|].
  split.
  { intros header before bad after Hbad. unfold load_csv_data. cbn [tl].
    rewrite !fold_left_app. cbn [fold_left].
    assert (E : forall s, append_sample s bad = s).
    { intros s. unfold append_sample.
      now rewrite (proj2 (parse_line_well_formed bad) Hbad). }
    now rewrite E. }
  split.
  { intros file H. unfold init.
    destruct (build_patterns_defaults _ H) as [-> ->]. split; reflexivity. }
  repeat split.
Qed.

(** C10. [split(',', 2)] cuts at the first two commas of the line, also
    when they lie inside a quoted field: for the line
    ["Wifi is down, please fix it",Technical,urgent] the loader stores the
    query "Wifi is down", the category " please fix it" (a fragment of the
    quoted query text) and the priority "Technical,urgent"; the category
    table built from that corpus has that fragment as its only key. *)
Theorem quoted_comma_splits_query :
  (forall a b c,
     all_chars (fun x => negb (Ascii.eqb x ",")) a = true ->
     all_chars (fun x => negb (Ascii.eqb x ",")) b = true ->
     split_on "," 2 (a ++ String "," (b ++ String "," c)) = [a; b; c]) /\
  let quoted := "Wifi is down, please fix it" in
  let line :=
    (String dquote quoted ++ String dquote ",Technical,urgent"
     ++ String "010"%char EmptyString)%string in
  split_on "," 2 (strip isspace line)
  = [ String dquote "Wifi is down";
      (" please fix it" ++ String dquote EmptyString)%string;
      "Technical,urgent" ] /\
  parse_line line
  = Some (mkSample "Wifi is down" " please fix it" "Technical,urgent") /\
  training_data
    (load_csv_data (CsvLines ["query,category,priority"; line]) empty_service)
  = [mkSample "Wifi is down" " please fix it" "Technical,urgent"] /\
  contains " please fix it" quoted = true /\
  keys (category_patterns (init (CsvLines ["query,category,priority"; line])))
  = [" please fix it"].
Proof.
  split; [intros a b c; apply split_on_two_separators|].
  repeat split; vm_compute; reflexivity.
Qed.

(** * The theorems at concrete inputs *)

Lemma extract_words_contract_witness :
  Tokenizes "ab c" ["ab"; "c"] /\
  ["ab"; "c"] = split (sub_non_alnum (lower "ab c")) /\
  extract_words "Wi-Fi is DOWN in room 12" = ["down"; "room"].
Proof.
  assert (T : Tokenizes "ab c" ["ab"; "c"]).
  { apply (Tok_word "ab" " c" ["c"]).
    - split; [discriminate | reflexivity].
    - reflexivity.
    - apply Tok_space; [reflexivity|].
      apply (Tok_word "c" EmptyString []).
      + split; [discriminate | reflexivity].
      + exact I.
      + apply Tok_end. }
  split; [exact T|].
  destruct (extract_words_contract "ab c") as (_ & _ & _ & Huniq & _ & _).
  split; [apply Huniq; exact T|].
  destruct (extract_words_contract "Wi-Fi is DOWN in room 12")
    as (_ & _ & _ & _ & Hfilter & _).
  rewrite Hfilter. reflexivity.
Defined.

Lemma shortcut_rules_first_match_witness :
  fires (mkShortcut ["water"; "tap"] ["hostel"] ("Hostel/Mess", "urgent")
                    ("Maintenance", "urgent"))
        "my tap drips" = true.
Proof.
  destruct shortcut_rules_first_match as (_ & Hfires & _).
  apply Hfires. exists "tap", "my ", " drips".
  split; [simpl; auto | reflexivity].
Defined.

Lemma classify_total_known_labels_witness :
  exists c p,
    classify_user_query (init CsvMissing) "the projector is damaged"
    = Returned (c, p) /\
    In c CATEGORIES /\ In p PRIORITIES.
Proof.
  destruct (classify_total_known_labels CsvMissing "the projector is damaged")
    as (c & p & Hret & _ & _ & _ & _ & Hdefault).
  exists c, p. split; [exact Hret|]. apply Hdefault. reflexivity.
Defined.

Lemma selection_policy_witness :
  exists c p,
    classify_user_query (init CsvMissing) "class class" = Returned (c, p) /\
    exists v, first_max (adjusted_category_scores (init CsvMissing) "class class")
                        c v.
Proof.
  destruct selection_policy as (Hsel & _ & _).
  destruct (Hsel (init CsvMissing) "class class") as (c & p & Hret & _ & Hmax & _).
  - reflexivity.
  - discriminate.
  - exists c, p. split; [exact Hret|]. apply Hmax. discriminate.
Defined.

Lemma weighted_scores_formula_witness :
  (exists s,
     get "Technical"
         (score_table category_score (category_patterns (init CsvMissing))
                      (extract_words "critical laptop email issue"))
     = Some s /\ (s == 5)%Q) /\
  (exists s,
     get "urgent"
         (score_table priority_score (priority_patterns (init CsvMissing))
                      (extract_words "critical laptop email issue"))
     = Some s /\ (s == 2)%Q) /\
  classify_user_query (init CsvMissing) "critical laptop email issue"
  = scoring_path (init CsvMissing) "critical laptop email issue".
Proof.
  destruct (weighted_scores_formula CsvMissing "critical laptop email issue")
    as (Hcat & Hpri & Hpath).
  split; [|split].
  - destruct (Hcat "Technical"
                ["login"; "password"; "portal"; "wifi"; "internet"; "network";
                 "computer"; "laptop"; "software"; "email"; "lms"; "system"])
      as (s & Hget & Hs).
    + simpl. left. reflexivity.
    + exists s. split; [exact Hget|].
      eapply Qeq_trans; [exact Hs | reflexivity].
  - destruct (Hpri "urgent"
                ["urgent"; "emergency"; "immediately"; "broken"; "not";
                 "working"; "critical"])
      as (s & Hget & Hs).
    + simpl. left. reflexivity.
    + exists s. split; [exact Hget|].
      eapply Qeq_trans; [exact Hs | reflexivity].
  - apply Hpath. reflexivity.
Defined.

Lemma built_tables_top_words_witness :
  let self :=
    mkService true
      [ mkSample "printer printer jam" "Technical" "high";
        mkSample "printer toner" "Technical" "low" ] [] [] in
  training_data self <> [] /\
  (forall label pats,
     In (label, pats) (category_patterns (build_patterns self)) ->
     List.length pats <= 50) /\
  (forall label pats,
     In (label, pats) (priority_patterns (build_patterns self)) ->
     List.length pats <= 30).
Proof.
  intros self.
  assert (Hne : training_data self <> []) by discriminate.
  split; [exact Hne|].
  destruct (built_tables_top_words self Hne) as (Hcat & Hpri & _ & _).
  split; intros label pats Hin.
  - now apply Hcat in Hin.
  - now apply Hpri in Hin.
Defined.

Lemma corpus_loading_contract_witness :
  well_formed "bad line" = false /\
  load_csv_data
    (CsvLines ["query,category,priority"; "slow wifi,Technical,high";
               "bad line"; "cold food,Hostel/Mess,low"]) empty_service
  = load_csv_data
      (CsvLines ["query,category,priority"; "slow wifi,Technical,high";
                 "cold food,Hostel/Mess,low"]) empty_service /\
  category_patterns (init CsvUnreadable) = category_defaults /\
  priority_patterns (init CsvUnreadable) = priority_defaults.
Proof.
  destruct corpus_loading_contract as (_ & _ & Hskip & Hdefault & _).
  split; [reflexivity|].
  split.
  - apply (Hskip "query,category,priority" ["slow wifi,Technical,high"]
                 "bad line" ["cold food,Hostel/Mess,low"]).
    reflexivity.
  - apply Hdefault. reflexivity.
Defined.

Lemma context_rules_add_labels_witness :
  boost "urgent" 5%Q [("whenever", 0%Q)]
  = [("whenever", 0%Q); ("urgent", (0 + 5)%Q)].
Proof.
  destruct context_rules_add_labels as (Hboost & _).
  apply (Hboost "urgent" 5%Q [("whenever", 0%Q)]). reflexivity.
Defined.

Lemma quoted_comma_splits_query_witness :
  split_on "," 2 "a b,c d,e,f" = ["a b"; "c d"; "e,f"].
Proof.
  destruct quoted_comma_splits_query as (Hsplit & _).
  apply (Hsplit "a b" "c d" "e,f"); reflexivity.
Defined.

(** * Beyond the claims: the scoring path *)

Lemma any_in_false : forall l h w,
  any_in l h = false -> In w l -> contains w h = false.
Proof.
  intros l h w H Hin. destruct (contains w h) eqn:E; [|reflexivity].
  assert (any_in l h = true) by (apply any_in_occurs; eauto). congruence.
Qed.

Lemma no_shortcut_no_trigger : forall ql words r,
  rule_based_classification ql words = None ->
  In r shortcuts -> fires r ql = false.
Proof.
  intros ql words r H Hin. rewrite rule_based_is_first_shortcut in H.
  unfold first_shortcut in H.
  destruct (find (fun r => fires r ql) shortcuts) eqn:F; [discriminate|].
  apply (find_none _ _ F r Hin).
Qed.

(** The trigger words of the shortcuts: none occurs in a text that reaches
    the scoring path. *)
Lemma no_shortcut_no_word : forall ql words w,
  rule_based_classification ql words = None ->
  In w (flat_map triggers shortcuts) -> contains w ql = false.
Proof.
  intros ql words w H Hin. apply in_flat_map in Hin as (r & Hr & Hw).
  apply (any_in_false (triggers r)); [|assumption].
  apply (no_shortcut_no_trigger ql words r H Hr).
Qed.

Lemma context_rules_on_scoring_path : forall ql words d,
  rule_based_classification ql words = None ->
  apply_context_rules ql words d = live_context_rules ql d.
Proof.
  intros ql words d H. unfold apply_context_rules, live_context_rules, any_in.
  cbn [existsb].
  assert (Eroom : contains "room" ql = false)
    by (apply (no_shortcut_no_word _ _ _ H); vm_compute; tauto).
  assert (Ebroken : contains "broken" ql = false)
    by (apply (no_shortcut_no_word _ _ _ H); vm_compute; tauto).
  assert (Erepair : contains "repair" ql = false)
    by (apply (no_shortcut_no_word _ _ _ H); vm_compute; tauto).
  assert (Efix : contains "fix" ql = false)
    by (apply (no_shortcut_no_word _ _ _ H); vm_compute; tauto).
  assert (Eportal : contains "portal" ql = false)
    by (apply (no_shortcut_no_word _ _ _ H); vm_compute; tauto).
  assert (Eexam : contains "exam" ql = false)
    by (apply (no_shortcut_no_word _ _ _ H); vm_compute; tauto).
  assert (Egrade : contains "grade" ql = false)
    by (apply (no_shortcut_no_word _ _ _ H); vm_compute; tauto).
  rewrite Eroom, Ebroken, Erepair, Efix, Eportal, Eexam, Egrade.
  rewrite !orb_false_r. cbn [orb]. reflexivity.
Qed.

Lemma priority_context_on_scoring_path : forall ql words cat d,
  rule_based_classification ql words = None ->
  apply_priority_context ql words cat d = live_priority_context ql d.
Proof.
  intros ql words cat d H.
  unfold apply_priority_context, live_priority_context, any_in.
  cbn [existsb].
  assert (Ebroken : contains "broken" ql = false)
    by (apply (no_shortcut_no_word _ _ _ H); vm_compute; tauto).
  assert (Eexam : contains "exam" ql = false)
    by (apply (no_shortcut_no_word _ _ _ H); vm_compute; tauto).
  assert (Egrade : contains "grade" ql = false)
    by (apply (no_shortcut_no_word _ _ _ H); vm_compute; tauto).
  assert (Ecert : contains "certificate" ql = false)
    by (apply (no_shortcut_no_word _ _ _ H); vm_compute; tauto).
  assert (Ewater : contains "water" ql = false)
    by (apply (no_shortcut_no_word _ _ _ H); vm_compute; tauto).
  assert (Eelec : contains "electricity" ql = false)
    by (apply (no_shortcut_no_word _ _ _ H); vm_compute; tauto).
  assert (Eelev : contains "elevator" ql = false)
    by (apply (no_shortcut_no_word _ _ _ H); vm_compute; tauto).
  assert (Elogin : contains "login" ql = false)
    by (apply (no_shortcut_no_word _ _ _ H); vm_compute; tauto).
  assert (Eportal : contains "portal" ql = false)
    by (apply (no_shortcut_no_word _ _ _ H); vm_compute; tauto).
  assert (Ewifi : contains "wifi" ql = false)
    by (apply (no_shortcut_no_word _ _ _ H); vm_compute; tauto).
  rewrite Ebroken, Eexam, Egrade, Ecert, Ewater, Eelec, Eelev, Elogin,
    Eportal, Ewifi.
  cbn [orb]. rewrite !andb_false_r, !orb_false_r. reflexivity.
Qed.

(** X1. A text that reaches the scoring stages contains no trigger word of
    any shortcut, so the category context tests on "room", "broken",
    "repair", "fix", "portal", "exam" and "grade" cannot succeed there:
    the adjusted category scores are those of the four remaining tests
    ("hostel"; "not working"; system/software/computer; class/lecture). *)
Theorem category_context_live_tests : forall self query,
  rule_based_classification (lower query) (extract_words query) = None ->
  (forall w, In w (flat_map triggers shortcuts) ->
             contains w (lower query) = false) /\
  adjusted_category_scores self query
  = live_context_rules (lower query)
      (score_table category_score (category_patterns self)
                   (extract_words query)).
Proof.
  intros self query H. split.
  - intros w Hw. now apply (no_shortcut_no_word _ _ w H).
  - unfold adjusted_category_scores.
    now apply context_rules_on_scoring_path.
Qed.

Lemma category_context_live_tests_witness :
  adjusted_category_scores (init CsvMissing) "the hostel is not working"
  = live_context_rules (lower "the hostel is not working")
      (score_table category_score (category_patterns (init CsvMissing))
                   (extract_words "the hostel is not working")).
Proof.
  apply (category_context_live_tests (init CsvMissing)
           "the hostel is not working").
  reflexivity.
Defined.

(** X2. On the scoring path the priority scores do not depend on the
    predicted category: the two category-dependent boosts
    (Maintenance with water/electricity/elevator, Technical with
    login/portal/wifi), the test on "broken" and the boost on
    exam/grade/certificate never apply, because each of these words makes a
    shortcut answer first.  What is left are the boosts on
    urgent/emergency/immediately/asap, on "not working"/damaged and on
    important/needed/required/missing. *)
Theorem priority_context_ignores_category : forall self query,
  rule_based_classification (lower query) (extract_words query) = None ->
  (forall cat d,
     apply_priority_context (lower query) (extract_words query) cat d
     = live_priority_context (lower query) d) /\
  (forall cat cat' d,
     apply_priority_context (lower query) (extract_words query) cat d
     = apply_priority_context (lower query) (extract_words query) cat' d) /\
  adjusted_priority_scores self query
  = live_priority_context (lower query)
      (score_table priority_score (priority_patterns self)
                   (extract_words query)).
Proof.
  intros self query H. split; [|split].
  - intros cat d. now apply priority_context_on_scoring_path.
  - intros cat cat' d.
    now rewrite !(priority_context_on_scoring_path _ _ _ _ H).
  - unfold adjusted_priority_scores.
    now apply priority_context_on_scoring_path.
Qed.

Lemma priority_context_ignores_category_witness :
  apply_priority_context (lower "system damaged asap")
    (extract_words "system damaged asap") "Maintenance" [("low", 0%Q)]
  = apply_priority_context (lower "system damaged asap")
      (extract_words "system damaged asap") "Technical" [("low", 0%Q)].
Proof.
  destruct (priority_context_ignores_category (init CsvMissing)
              "system damaged asap") as (_ & Hcat & _).
  - reflexivity.
  - apply Hcat.
Defined.

(** * Beyond the claims: letter case *)

Lemma lower_char_idempotent : forall c, lower_char (lower_char c) = lower_char c.
Proof.
  intros [b0 b1 b2 b3 b4 b5 b6 b7].
  destruct b0, b1, b2, b3, b4, b5, b6, b7; reflexivity.
Qed.

Lemma lower_idempotent : forall s, lower (lower s) = lower s.
Proof.
  induction s as [|c s IH]; simpl; [reflexivity|].
  now rewrite lower_char_idempotent, IH.
Qed.

(** X3. Classification reads its text only through the lower-cased form:
    two texts that differ in letter case alone get the same words and the
    same result, and lower-casing a text beforehand changes nothing. *)
Theorem classification_ignores_case : forall self q q',
  lower q = lower q' ->
  extract_words q = extract_words q' /\
  classify_user_query self q = classify_user_query self q' /\
  classify_user_query self (lower q) = classify_user_query self q.
Proof.
  assert (Hw : forall a b, lower a = lower b -> extract_words a = extract_words b).
  { intros a b E. unfold extract_words. now rewrite E. }
  assert (Hc : forall self a b, lower a = lower b ->
                 classify_user_query self a = classify_user_query self b).
  { intros self a b E.
    unfold classify_user_query, scoring_path, adjusted_priority_scores,
      predicted_category, adjusted_category_scores.
    now rewrite (Hw a b E), E. }
  intros self q q' E. split; [now apply Hw|]. split; [now apply Hc|].
  apply Hc. apply lower_idempotent.
Qed.

Lemma classification_ignores_case_witness :
  classify_user_query (init CsvMissing) "The LIFT is Damaged"
  = classify_user_query (init CsvMissing) "the lift is damaged".
Proof.
  apply (classification_ignores_case (init CsvMissing)
           "The LIFT is Damaged" "the lift is damaged").
  reflexivity.
Defined.

(** * Beyond the claims: what the built tables hold *)

Lemma extract_words_clean : forall text w,
  In w (extract_words text) -> clean_word w.
Proof.
  intros text w Hw. unfold extract_words in Hw.
  apply filter_In in Hw as [Hin Hlen].
  split; [|now apply Nat.ltb_lt].
  pose proof (tokens_class is_alnum_lower _ _ (split_sound _)
                (normalize_class text)) as Hall.
  rewrite Forall_forall in Hall. now apply Hall.
Qed.

Lemma top_words_in_keys : forall n d w, In w (top_words n d) -> In w (keys d).
Proof.
  intros n d w Hw. unfold top_words in Hw.
  apply in_map_iff in Hw as (wc & <- & Hin).
  apply filter_In in Hin as [Hin _]. apply in_firstn in Hin.
  apply in_map. eapply Permutation_in; [|exact Hin].
  apply Permutation_sym, sorted_desc_perm.
Qed.

Lemma occurrences_clean : forall label_of l data w,
  In w (occurrences label_of l data) -> clean_word w.
Proof.
  intros label_of l data w Hw. unfold occurrences in Hw.
  apply in_flat_map in Hw as (item & _ & Hin).
  destruct (String.eqb (label_of item) l); [|contradiction].
  now apply extract_words_clean in Hin.
Qed.

Lemma built_table_clean : forall label_of n data,
  clean_table (build_table n (fold_left (count_item_for label_of) data [])).
Proof.
  intros label_of n data label patterns w Hin Hw.
  apply built_entry in Hin as [_ ->].
  apply top_words_in_keys in Hw. rewrite word_counts_keys in Hw.
  apply -> first_occurrences_In in Hw.
  now apply occurrences_clean in Hw.
Qed.

Lemma clean_table_check : forall table,
  forallb (fun lp =>
             forallb (fun w => all_chars is_alnum_lower w
                               && (2 <? String.length w)) (snd lp))
          table = true ->
  clean_table table.
Proof.
  intros table H label patterns w Hin Hw.
  rewrite forallb_forall in H. specialize (H _ Hin). simpl in H.
  rewrite forallb_forall in H. specialize (H _ Hw).
  apply andb_true_iff in H as [Ha Hl].
  split; [assumption | now apply Nat.ltb_lt].
Qed.

(** X4. Whatever the corpus file holds, every entry of every pattern list
    of the service the constructor builds is a word of the shape
    [extract_words] produces: lower-case ASCII letters and digits only,
    more than two characters.  This holds for the lists built from
    training samples and for the default lists alike, so every entry can
    be met by the exact-match test of the scoring stage. *)
Theorem pattern_entries_are_words : forall file label patterns w,
  In (label, patterns) (category_patterns (init file))
  \/ In (label, patterns) (priority_patterns (init file)) ->
  In w patterns ->
  all_chars is_alnum_lower w = true /\ 2 < String.length w.
Proof.
  intros file label patterns w Hin Hw.
  assert (Hclean : clean_table (category_patterns (init file)) /\
                   clean_table (priority_patterns (init file))).
  { unfold init, build_patterns.
    destruct (training_data (load_csv_data file empty_service)) as [|item data].
    - split; apply clean_table_check; vm_compute; reflexivity.
    - unfold count_all. rewrite count_all_split. cbn [category_patterns
        priority_patterns fst snd].
      split; apply built_table_clean. }
  destruct Hclean as [Hc Hp].
  destruct Hin as [Hin|Hin]; [apply (Hc _ _ _ Hin Hw) | apply (Hp _ _ _ Hin Hw)].
Qed.

Lemma pattern_entries_are_words_witness :
  all_chars is_alnum_lower "printer" = true /\ 2 < String.length "printer".
Proof.
  apply (pattern_entries_are_words
           (CsvLines ["query,category,priority";
                      "My PRINTER is the slow printer!,Technical,high"])
           "Technical" ["printer"] "printer").
  - left. vm_compute. left. reflexivity.
  - simpl. left. reflexivity.
Defined.

Lemma has_key_keys : forall {V} k (d : dict V),
  has_key k d = true <-> In k (keys d).
Proof.
  intros V k d. unfold has_key. pose proof (get_None_keys k d) as H.
  destruct (get k d) eqn:E.
  - split; [intros _ | reflexivity]. now apply get_Some_keys in E.
  - split; [discriminate|]. intros Hin. now apply (proj1 H) in Hin.
Qed.

Lemma count_item_for_keys : forall label_of t item,
  keys (count_item_for label_of t item)
  = if has_key (label_of item) t then keys t else keys t ++ [label_of item].
Proof.
  intros label_of t item. unfold count_item_for.
  set (l0 := label_of item).
  assert (Hens : keys (ensure_label l0 t)
                 = (if has_key l0 t then keys t else keys t ++ [l0]) /\
                 has_key l0 (ensure_label l0 t) = true).
  { unfold ensure_label. destruct (has_key l0 t) eqn:E; [auto|].
    rewrite keys_set, E. split; [reflexivity|].
    unfold has_key. now rewrite get_set_same. }
  destruct Hens as [<- Hhas].
  apply (count_words_inv
           (fun t' => keys t' = keys (ensure_label l0 t)
                      /\ has_key l0 t' = true) l0); [|auto].
  intros w t' [Hk Hh]. unfold count_word.
  rewrite keys_set, Hh. split; [exact Hk|].
  unfold has_key. now rewrite get_set_same.
Qed.

Lemma count_loop_keys : forall label_of data,
  keys (fold_left (count_item_for label_of) data [])
  = first_occurrences (map label_of data).
Proof.
  intros label_of data. induction data as [|item data IH] using rev_ind.
  - reflexivity.
  - rewrite fold_left_app. cbn [fold_left].
    rewrite count_item_for_keys, map_app. cbn [map].
    rewrite first_occurrences_snoc, IH.
    unfold has_key. rewrite count_loop_get.
    now destruct (mem (label_of item) (map label_of data)).
Qed.

Lemma built_table_keys : forall label_of n data,
  keys (build_table n (fold_left (count_item_for label_of) data []))
  = first_occurrences (map label_of data).
Proof.
  intros label_of n data.
  rewrite build_table_as_map by (apply count_loop_NoDup; constructor).
  unfold keys at 1. rewrite map_map. cbn [fst].
  apply count_loop_keys.
Qed.

Lemma kept_lines_samples : forall lines,
  List.length
    (flat_map (fun line => match parse_line line with
                           | Some item => [item]
                           | None => []
                           end) (filter well_formed lines))
  = List.length (filter well_formed lines).
Proof.
  induction lines as [|line lines IH]; [reflexivity|].
  cbn [filter]. destruct (well_formed line) eqn:E; [|exact IH].
  cbn [flat_map]. rewrite length_app, IH.
  destruct (proj1 (parse_line_well_formed line) E) as [item ->].
  reflexivity.
Qed.

Lemma build_patterns_loaded : forall self,
  models_loaded (build_patterns self) = models_loaded self.
Proof.
  intros self. unfold build_patterns.
  now destruct (training_data self).
Qed.

Lemma build_patterns_keys : forall self,
  keys (category_patterns (build_patterns self))
  = match training_data self with
    | [] => ["Technical"; "Academic"; "Hostel/Mess"; "Maintenance"]
    | data => first_occurrences (map category data)
    end /\
  keys (priority_patterns (build_patterns self))
  = match training_data self with
    | [] => ["urgent"; "high"; "medium"; "low"]
    | data => first_occurrences (map priority data)
    end.
Proof.
  intros self. unfold build_patterns.
  destruct (training_data self) as [|item data]; [split; reflexivity|].
  unfold count_all. rewrite count_all_split.
  cbn [category_patterns priority_patterns fst snd].
  split; apply built_table_keys.
Qed.

(** X5. What [ml_status] reports for the service the constructor builds.
    When the corpus file was read, [models_loaded] is true and
    [training_samples] is the number of lines after the header that have at
    least three comma-separated parts, also when that number is 0 and the
    tables are the default ones.  With at least one sample,
    [available_categories] and [available_priorities] are the distinct
    labels of the samples in order of first appearance; without samples
    they are the keys of the default tables.  When the file is missing or
    unreadable the report is (false, default keys, 0). *)
Theorem ml_status_report :
  (forall lines,
     let self := init (CsvLines lines) in
     ml_status self
     = (true,
        match training_data self with
        | [] => ["Technical"; "Academic"; "Hostel/Mess"; "Maintenance"]
        | data => first_occurrences (map category data)
        end,
        match training_data self with
        | [] => ["urgent"; "high"; "medium"; "low"]
        | data => first_occurrences (map priority data)
        end,
        List.length (filter well_formed (tl lines)))) /\
  (forall file,
     file = CsvMissing \/ file = CsvUnreadable ->
     ml_status (init file)
     = (false, ["Technical"; "Academic"; "Hostel/Mess"; "Maintenance"],
        ["urgent"; "high"; "medium"; "low"], 0)).
Proof.
  split.
  - intros lines self. subst self. unfold ml_status, init.
    destruct (build_patterns_keys (load_csv_data (CsvLines lines) empty_service))
      as [-> ->].
    rewrite build_patterns_loaded, build_patterns_data.
    cbn [load_csv_data models_loaded training_data].
    rewrite load_lines_data. cbn [training_data empty_service app].
    rewrite skipped_lines_load_nothing, kept_lines_samples.
    reflexivity.
  - intros file [-> | ->]; reflexivity.
Qed.

Lemma ml_status_report_witness :
  ml_status (init CsvUnreadable)
  = (false, ["Technical"; "Academic"; "Hostel/Mess"; "Maintenance"],
     ["urgent"; "high"; "medium"; "low"], 0).
Proof.
  destruct ml_status_report as [_ H]. apply H. right. reflexivity.
Defined.

(** * Beyond the claims: the fields of a corpus line *)

Lemma split_on_from_length : forall sep s n cur,
  List.length (split_on_from sep n cur s)
  = S (Nat.min n (count_occ ascii_dec (list_ascii_of_string s) sep)).
Proof.
  intros sep. induction s as [|c r IH]; intros n cur.
  - simpl. now rewrite Nat.min_0_r.
  - destruct n as [|m]; [reflexivity|].
    cbn [split_on_from list_ascii_of_string].
    destruct (Ascii.eqb_spec c sep) as [->|Hne].
    + rewrite count_occ_cons_eq by reflexivity.
      cbn [List.length]. now rewrite IH, <- Nat.succ_min_distr.
    + rewrite count_occ_cons_neq by assumption. apply IH.
Qed.

Lemma split_on_from_join : forall sep s n cur,
  String.concat (String sep EmptyString) (split_on_from sep n cur s)
  = (cur ++ s)%string.
Proof.
  intros sep. induction s as [|c r IH]; intros n cur.
  - simpl. now rewrite str_app_nil_r.
  - destruct n as [|m]; [reflexivity|].
    cbn [split_on_from].
    destruct (Ascii.eqb_spec c sep) as [->|Hne].
    + pose proof (IH m EmptyString) as Hrest.
      destruct (split_on_from sep m EmptyString r) as [|x xs] eqn:E.
      * pose proof (split_on_from_length sep r m EmptyString) as Hl.
        rewrite E in Hl. discriminate Hl.
      * change (String.concat (String sep EmptyString) (cur :: x :: xs))
          with (cur ++ String sep EmptyString
                ++ String.concat (String sep EmptyString) (x :: xs))%string.
        rewrite Hrest. reflexivity.
    + rewrite IH, str_app_assoc. reflexivity.
Qed.

Lemma split_on_from_fields : forall sep s n cur,
  all_chars (fun x => negb (Ascii.eqb x sep)) cur = true ->
  Forall (fun f => all_chars (fun x => negb (Ascii.eqb x sep)) f = true)
         (removelast (split_on_from sep n cur s)).
Proof.
  intros sep. induction s as [|c r IH]; intros n cur Hcur.
  - constructor.
  - destruct n as [|m]; [constructor|].
    cbn [split_on_from].
    destruct (Ascii.eqb_spec c sep) as [->|Hne].
    + pose proof (split_on_from_length sep r m EmptyString) as Hl.
      destruct (split_on_from sep m EmptyString r) as [|x xs] eqn:E;
        [discriminate Hl|].
      change (removelast (cur :: x :: xs)) with (cur :: removelast (x :: xs)).
      constructor; [assumption|].
      rewrite <- E. now apply IH.
    + apply IH. rewrite all_chars_app, Hcur. simpl.
      destruct (Ascii.eqb_spec c sep); [contradiction | reflexivity].
Qed.

Lemma all_chars_lstrip : forall q p s,
  all_chars q s = true -> all_chars q (lstrip p s) = true.
Proof.
  intros q p. induction s as [|c r IH]; intros H; [reflexivity|].
  simpl. destruct (p c); [|exact H].
  simpl in H. apply andb_true_iff in H as [_ H]. auto.
Qed.

Lemma all_chars_rstrip : forall q p s,
  all_chars q s = true -> all_chars q (rstrip p s) = true.
Proof.
  intros q p. induction s as [|c r IH]; intros H; [reflexivity|].
  simpl in *. apply andb_true_iff in H as [Hc H]. specialize (IH H).
  destruct (rstrip p r).
  - destruct (p c); [reflexivity|]. simpl. now rewrite Hc.
  - simpl in *. now rewrite Hc, IH.
Qed.

Lemma all_chars_strip : forall q p s,
  all_chars q s = true -> all_chars q (strip p s) = true.
Proof. intros. unfold strip. now apply all_chars_rstrip, all_chars_lstrip. Qed.

Lemma lstrip_head : forall p s c r, lstrip p s = String c r -> p c = false.
Proof.
  intros p. induction s as [|x s IH]; intros c r H; [discriminate|].
  simpl in H. destruct (p x) eqn:E; [eauto|]. now injection H as <- _.
Qed.

Lemma rstrip_head : forall p s c r,
  rstrip p s = String c r -> exists r', s = String c r'.
Proof.
  intros p [|x s] c r H; [discriminate|].
  simpl in H. destruct (rstrip p s); [destruct (p x); [discriminate|]|];
    injection H as <- _; eauto.
Qed.

Lemma rstrip_last : forall p s pre c,
  rstrip p s = (pre ++ String c EmptyString)%string -> p c = false.
Proof.
  intros p. induction s as [|x s IH]; intros pre c H.
  - destruct pre; discriminate.
  - simpl in H. destruct (rstrip p s) as [|y t] eqn:E.
    + destruct (p x) eqn:Ex; [destruct pre; discriminate|].
      destruct pre as [|z pre]; [now injection H as <- | ].
      injection H as _ H. destruct pre; discriminate.
    + destruct pre as [|z pre]; [discriminate|].
      injection H as _ H. now apply (IH pre c).
Qed.

Lemma strip_ends : forall p s,
  (forall c r, strip p s = String c r -> p c = false) /\
  (forall pre c, strip p s = (pre ++ String c EmptyString)%string ->
                 p c = false).
Proof.
  intros p s. unfold strip. split.
  - intros c r H. apply rstrip_head in H as [r' H].
    now apply lstrip_head in H.
  - intros pre c H. now apply rstrip_last in H.
Qed.

(** X6. What the loader makes of a line.  A line is kept exactly when,
    trimmed of surrounding whitespace, it has at least two commas.  The
    trimmed line is then query-part, comma, category-part, comma,
    priority-part, where the first two parts have no comma (the third has
    all the further ones), and the three fields of the sample are these
    parts without their leading and trailing double quotes: the stored
    query and category never contain a comma, and no stored field begins or
    ends with a double quote. *)
Theorem parse_line_fields : forall line,
  (well_formed line = true <->
   2 <= count_occ ascii_dec (list_ascii_of_string (strip isspace line)) ","%char) /\
  (forall item, parse_line line = Some item ->
   exists p0 p1 p2,
     strip isspace line = (p0 ++ "," ++ p1 ++ "," ++ p2)%string /\
     all_chars (fun x => negb (Ascii.eqb x ",")) p0 = true /\
     all_chars (fun x => negb (Ascii.eqb x ",")) p1 = true /\
     item = mkSample (strip is_dquote p0) (strip is_dquote p1)
                     (strip is_dquote p2) /\
     all_chars (fun x => negb (Ascii.eqb x ",")) (query item) = true /\
     all_chars (fun x => negb (Ascii.eqb x ",")) (category item) = true /\
     Forall (fun f =>
               (forall c r, f = String c r -> c <> dquote) /\
               (forall pre c, f = (pre ++ String c EmptyString)%string ->
                              c <> dquote))
            [query item; category item; priority item]).
Proof.
  intros line. split.
  - unfold well_formed, split_on. rewrite split_on_from_length.
    rewrite Nat.leb_le.
    destruct (count_occ ascii_dec (list_ascii_of_string (strip isspace line)) ","%char)
      as [|[|k]]; simpl; lia.
  - intros item Hparse. unfold parse_line, split_on in Hparse.
    pose proof (split_on_from_length ","%char (strip isspace line) 2 EmptyString) as Hlen.
    pose proof (split_on_from_join ","%char (strip isspace line) 2 EmptyString) as Hjoin.
    pose proof (split_on_from_fields ","%char (strip isspace line) 2 EmptyString
                  eq_refl) as Hfields.
    destruct (split_on_from "," 2 EmptyString (strip isspace line))
      as [|p0 [|p1 [|p2 rest]]]; try discriminate.
    assert (rest = []) as ->.
    { destruct rest; [reflexivity|]. simpl in Hlen.
      destruct (count_occ _ _ _) as [|[|k]]; simpl in Hlen; lia. }
    injection Hparse as <-.
    cbn [removelast] in Hfields.
    inversion Hfields as [|? ? H0 Hf1]; subst.
    inversion Hf1 as [|? ? H1 _]; subst.
    exists p0, p1, p2. cbn [String.concat] in Hjoin. simpl in Hjoin.
    split; [now rewrite <- Hjoin|].
    split; [exact H0|]. split; [exact H1|]. split; [reflexivity|].
    cbn [query category priority].
    split; [now apply all_chars_strip|]. split; [now apply all_chars_strip|].
    assert (Hq : forall c, is_dquote c = false -> c <> dquote).
    { intros c Hc ->. unfold is_dquote in Hc.
      now rewrite Ascii.eqb_refl in Hc. }
    repeat constructor; intros; apply Hq;
      match goal with
      | H : strip is_dquote ?p = String _ _ |- _ =>
          apply (proj1 (strip_ends is_dquote p) _ _ H)
      | H : strip is_dquote ?p = (_ ++ _)%string |- _ =>
          apply (proj2 (strip_ends is_dquote p) _ _ H)
      end.
Qed.

Lemma parse_line_fields_witness :
  exists p0 p1 p2,
    strip isspace "slow wifi in lab 2,Technical,high"
    = (p0 ++ "," ++ p1 ++ "," ++ p2)%string /\
    mkSample "slow wifi in lab 2" "Technical" "high"
    = mkSample (strip is_dquote p0) (strip is_dquote p1) (strip is_dquote p2).
Proof.
  destruct (parse_line_fields "slow wifi in lab 2,Technical,high") as [_ H].
  destruct (H (mkSample "slow wifi in lab 2" "Technical" "high") eq_refl)
    as (p0 & p1 & p2 & Hline & _ & _ & Hitem & _).
  now exists p0, p1, p2.
Defined.

(** * Beyond the claims: the token check *)

Lemma split_sep_from_head : forall sep s cur,
  exists t rest tail,
    s = (t ++ rest)%string /\
    all_chars (fun x => negb (Ascii.eqb x sep)) t = true /\
    match rest with
    | EmptyString => True
    | String c _ => c = sep
    end /\
    split_sep_from sep cur s = (cur ++ t)%string :: tail.
Proof.
  intros sep. induction s as [|c r IH]; intros cur.
  - exists EmptyString, EmptyString, []. simpl. now rewrite str_app_nil_r.
  - simpl. destruct (Ascii.eqb_spec c sep) as [->|Hne].
    + exists EmptyString, (String sep r), (split_sep_from sep EmptyString r).
      simpl. now rewrite str_app_nil_r.
    + destruct (IH (cur ++ String c EmptyString)%string)
        as (t & rest & tail & -> & Ht & Hrest & Hs).
      exists (String c t), rest, tail. simpl.
      destruct (Ascii.eqb_spec c sep); [contradiction|].
      rewrite Ht, Hs, str_app_assoc. auto.
Qed.

Lemma token_decomposition : forall t rest t' rest',
  (t ++ rest)%string = (t' ++ rest')%string ->
  all_chars (fun x => negb (Ascii.eqb x " ")) t = true ->
  all_chars (fun x => negb (Ascii.eqb x " ")) t' = true ->
  match rest with EmptyString => True | String c _ => c = " "%char end ->
  match rest' with EmptyString => True | String c _ => c = " "%char end ->
  t = t'.
Proof.
  induction t as [|c t IH]; intros rest t' rest' E Ht Ht' Hr Hr'.
  - destruct t' as [|c' t']; [reflexivity|].
    simpl in *. destruct rest as [|x r]; [discriminate|].
    injection E as E1 E2. subst x. rewrite Hr in Ht'. discriminate Ht'.
  - destruct t' as [|c' t'].
    + simpl in *. destruct rest' as [|x r]; [discriminate|].
      injection E as E1 E2. subst x. rewrite Hr' in Ht. discriminate Ht.
    + simpl in *. injection E as -> E.
      apply andb_true_iff in Ht as [_ Ht].
      apply andb_true_iff in Ht' as [_ Ht'].
      f_equal. eapply IH; eauto.
Qed.

Lemma bearer_token_spec : forall h,
  bearer_token (Some h) <> None /\
  forall t,
    bearer_token (Some h) = Some (Some t) <->
    exists rest,
      h = ("Bearer " ++ t ++ rest)%string /\
      all_chars (fun x => negb (Ascii.eqb x " ")) t = true /\
      match rest with EmptyString => True | String c _ => c = " "%char end.
Proof.
  intros h. unfold bearer_token.
  destruct (truthy h && String.prefix "Bearer " h) eqn:E.
  - apply andb_true_iff in E as [_ E]. apply prefix_app in E as [x ->].
    change (split_sep " " ("Bearer " ++ x))
      with (split_sep_from " " "Bearer" (String " " x)).
    cbn [split_sep_from]. change (Ascii.eqb " " " ") with true. cbv iota.
    destruct (split_sep_from_head " " x EmptyString)
      as (t0 & rest0 & tail & -> & Ht0 & Hrest0 & ->).
    cbn [nth_error append]. split; [discriminate|].
    intros t. split.
    + intros [= <-]. now exists rest0.
    + intros (rest & Hh & Ht & Hrest). f_equal. f_equal.
      assert (Hx : (t0 ++ rest0)%string = (t ++ rest)%string).
      { simpl in Hh. congruence. }
      eapply token_decomposition; eauto.
  - split; [discriminate|]. intros t. split; [discriminate|].
    intros (rest & -> & _).
    assert (P : String.prefix "Bearer " ("Bearer " ++ t ++ rest) = true)
      by (apply prefix_app; now exists (t ++ rest)%string).
    rewrite P in E. discriminate E.
Qed.

(** X7. The decorator calls the view exactly for a header "Bearer " +
    token + rest where the token is non-empty and has no space, the rest is
    empty or begins with a space, and [jwt.decode] accepts the token; the
    identity passed on is the payload's [user_id], or its [admin_id] when
    [user_id] is absent or 0, with the payload's role.  Every answer the
    decorator gives by itself has status 401, and an exception escapes it
    only when [jwt.decode] raises one it does not handle: the subscript
    [split(' ')[1]] never fails. *)
Theorem token_required_admission : forall jwt_decode auth_header,
  (forall uid role,
     token_required jwt_decode auth_header = AuthCall uid role <->
     exists t rest user_id admin_id,
       auth_header = Some ("Bearer " ++ t ++ rest)%string /\
       t <> EmptyString /\
       all_chars (fun x => negb (Ascii.eqb x " ")) t = true /\
       match rest with EmptyString => True | String c _ => c = " "%char end /\
       jwt_decode t = JwtPayload user_id admin_id role /\
       uid = py_or user_id admin_id) /\
  (forall status message,
     token_required jwt_decode auth_header = AuthReply status message ->
     status = 401) /\
  (token_required jwt_decode auth_header = AuthEscapes ->
   exists t, jwt_decode t = JwtRaises).
Proof.
  intros jwt_decode auth_header. unfold token_required.
  destruct auth_header as [h|].
  2:{ cbn [bearer_token]. split; [|split].
      - intros uid role. split; [discriminate|].
        intros (t & rest & u & a & H & _). discriminate H.
      - now intros status message [= <- _].
      - discriminate. }
  destruct (bearer_token_spec h) as [Hne Htok].
  destruct (bearer_token (Some h)) as [[t|]|] eqn:E; [| |now elim Hne].
  - pose proof (proj1 (Htok t) eq_refl) as (rest & Hh & Ht & Hrest).
    assert (Huniq : forall t' rest',
               Some h = Some ("Bearer " ++ t' ++ rest')%string ->
               all_chars (fun x => negb (Ascii.eqb x " ")) t' = true ->
               match rest' with
               | EmptyString => True
               | String c _ => c = " "%char
               end -> t' = t).
    { intros t' rest' [= Hh'] Ht' Hrest'.
      assert (Hs : Some (Some t) = Some (Some t'))
        by (apply Htok; now exists rest').
      now injection Hs. }
    unfold truthy. destruct (String.eqb_spec t "") as [->|Hnz]; cbn [negb].
    + split; [|split].
      * intros uid role. split; [discriminate|].
        intros (t' & rest' & u & a & Hh' & Hnz' & Ht' & Hrest' & _).
        elim Hnz'. now apply (Huniq t' rest').
      * now intros status message [= <- _].
      * discriminate.
    + split; [|split].
      * intros uid role. split.
        -- destruct (jwt_decode t) as [u a r| | |] eqn:D; try discriminate.
           intros [= <- <-]. exists t, rest, u, a. subst h. auto 10.
        -- intros (t' & rest' & u & a & Hh' & _ & Ht' & Hrest' & D & ->).
           rewrite (Huniq t' rest' Hh' Ht' Hrest') in D. now rewrite D.
      * intros status message.
        destruct (jwt_decode t); try discriminate; now intros [= <- _].
      * intros H. exists t. now destruct (jwt_decode t).
  - split; [|split].
    + intros uid role. split; [discriminate|].
      intros (t' & rest' & u & a & Hh' & _ & Ht' & Hrest' & _).
      injection Hh' as Hh'.
      assert (Hs : Some (@None string) = Some (Some t'))
        by (apply Htok; now exists rest').
      discriminate Hs.
    + now intros status message [= <- _].
    + discriminate.
Qed.

Lemma token_required_admission_witness :
  token_required
    (fun t => if String.eqb t "abc"
              then JwtPayload (Some 0%Z) (Some 7%Z) (Some "admin")
              else JwtInvalid)
    (Some "Bearer abc and more")
  = AuthCall (Some 7%Z) (Some "admin").
Proof.
  apply token_required_admission.
  exists "abc", " and more", (Some 0%Z), (Some 7%Z).
  repeat split; try reflexivity. discriminate.
Defined.

(** * Beyond the claims: the classification endpoint and the submission *)

Lemma classify_returns : forall file q,
  exists c p,
    classify_user_query (init file) q = Returned (c, p) /\
    (In c CATEGORIES \/ In c (keys (category_patterns (init file)))) /\
    (In p PRIORITIES \/ In p (keys (priority_patterns (init file)))).
Proof.
  intros file q. unfold classify_user_query.
  destruct (rule_based_classification _ _) as [[c p]|] eqn:Hrule.
  - apply rule_results_in_domain in Hrule as [Hc Hp]. exists c, p. auto.
  - destruct (init_tables_ok file) as (_ & _ & _ & Hne).
    destruct (scoring_path_returns (init file) q Hne) as (p & Hret & Hp).
    exists (predicted_category (init file) q), p.
    split; [exact Hret|]. split; [apply predicted_category_domain | exact Hp].
Qed.

(** X8. [classify_query] on the service the constructor builds.  It answers
    with a classification exactly when the body is an object whose "query"
    is a string that, trimmed of surrounding whitespace, has at least five
    characters; the text classified and echoed is the trimmed one and the
    labels are those of [classify_user_query] on it.  A string query is
    never answered with status 500: when too short it gets status 400
    ("required" for the empty string, "at least 5 characters" otherwise,
    also for whitespace only). *)
Theorem classify_query_replies : forall file uid role body,
  let ml := init file in
  (forall q c p uid' role' loaded,
     classify_query ml uid role body = MlClassified q c p uid' role' loaded <->
     exists s,
       body = BodyObject (QueryText s) /\
       q = strip isspace s /\ 5 <= String.length q /\
       classify_user_query ml q = Returned (c, p) /\
       uid' = uid /\ role' = role /\ loaded = models_loaded ml) /\
  (forall s,
     body = BodyObject (QueryText s) ->
     (String.length (strip isspace s) < 5 ->
      classify_query ml uid role body
      = MlError 400 (if String.eqb s ""
                     then "Query text is required"
                     else "Query text must be at least 5 characters long")) /\
     (5 <= String.length (strip isspace s) ->
      exists c p,
        classify_query ml uid role body
        = MlClassified (strip isspace s) c p uid role (models_loaded ml))).
Proof.
  intros file uid role body ml.
  assert (Hlen0 : forall s, truthy s = false -> String.length (strip isspace s) < 5).
  { intros s H. unfold truthy in H. apply negb_false_iff in H.
    apply String.eqb_eq in H. subst s. simpl. lia. }
  split.
  - intros q c p uid' role' loaded. split.
    + destruct body as [| | |[|s|]]; cbn [classify_query]; try discriminate.
      destruct (truthy s) eqn:Es; cbn [negb]; [|discriminate].
      destruct (String.length (strip isspace s) <? 5) eqn:El; [discriminate|].
      apply Nat.ltb_ge in El.
      destruct (classify_user_query ml (strip isspace s)) as [[c0 p0]|] eqn:Ec;
        [|discriminate].
      intros [= <- <- <- <- <- <-]. exists s. auto 10.
    + intros (s & -> & -> & Hl & Hc & -> & -> & ->). cbn [classify_query].
      destruct (truthy s) eqn:Es; cbn [negb].
      * apply Nat.ltb_ge in Hl. now rewrite Hl, Hc.
      * apply Hlen0 in Es. lia.
  - intros s ->. cbn [classify_query]. split.
    + intros Hl. unfold truthy.
      destruct (String.eqb s "") eqn:Es; cbn [negb]; [reflexivity|].
      apply Nat.ltb_lt in Hl. now rewrite Hl.
    + intros Hl. destruct (truthy s) eqn:Es; cbn [negb].
      * apply Nat.ltb_ge in Hl. rewrite Hl.
        destruct (classify_returns file (strip isspace s)) as (c & p & Hc & _).
        fold ml in Hc. rewrite Hc. now exists c, p.
      * apply Hlen0 in Es. lia.
Qed.

Lemma classify_query_replies_witness :
  exists c p,
    classify_query (init CsvMissing) (Some 3%Z) (Some "student")
                   (BodyObject (QueryText "  my laptop  "))
    = MlClassified "my laptop" c p (Some 3%Z) (Some "student") false.
Proof.
  destruct (classify_query_replies CsvMissing (Some 3%Z) (Some "student")
              (BodyObject (QueryText "  my laptop  "))) as [_ H].
  destruct (H "  my laptop  " eq_refl) as [_ Hok].
  apply Hok. simpl. lia.
Defined.

Lemma category_of_value_spec : forall v,
  (forall c, Complaints.category_of_value v = Some c <->
             Complaints.category_value c = v) /\
  (Complaints.category_of_value v = None <-> ~ In v CATEGORIES).
Proof.
  intros v. unfold Complaints.category_of_value. cbn [find Complaints.category_value].
  destruct (String.eqb_spec "Technical" v) as [<-|H1].
  { split; [intros []; split; intro H; try discriminate; reflexivity|].
    split; [discriminate | intros H; elim H; simpl; tauto]. }
  destruct (String.eqb_spec "Academic" v) as [<-|H2].
  { split; [intros []; split; intro H; try discriminate; reflexivity|].
    split; [discriminate | intros H; elim H; simpl; tauto]. }
  destruct (String.eqb_spec "Hostel/Mess" v) as [<-|H3].
  { split; [intros []; split; intro H; try discriminate; reflexivity|].
    split; [discriminate | intros H; elim H; simpl; tauto]. }
  destruct (String.eqb_spec "Maintenance" v) as [<-|H4].
  { split; [intros []; split; intro H; try discriminate; reflexivity|].
    split; [discriminate | intros H; elim H; simpl; tauto]. }
  split.
  - intros []; split; intro H; try discriminate; simpl in H; congruence.
  - split; [|reflexivity]. intros _. simpl. tauto.
Qed.

Lemma priority_of_value_spec : forall v,
  (forall p, Complaints.priority_of_value v = Some p <->
             Complaints.priority_value p = v) /\
  (Complaints.priority_of_value v = None <-> ~ In v PRIORITIES).
Proof.
  intros v. unfold Complaints.priority_of_value. cbn [find Complaints.priority_value].
  destruct (String.eqb_spec "low" v) as [<-|H1].
  { split; [intros []; split; intro H; try discriminate; reflexivity|].
    split; [discriminate | intros H; elim H; simpl; tauto]. }
  destruct (String.eqb_spec "medium" v) as [<-|H2].
  { split; [intros []; split; intro H; try discriminate; reflexivity|].
    split; [discriminate | intros H; elim H; simpl; tauto]. }
  destruct (String.eqb_spec "high" v) as [<-|H3].
  { split; [intros []; split; intro H; try discriminate; reflexivity|].
    split; [discriminate | intros H; elim H; simpl; tauto]. }
  destruct (String.eqb_spec "urgent" v) as [<-|H4].
  { split; [intros []; split; intro H; try discriminate; reflexivity|].
    split; [discriminate | intros H; elim H; simpl; tauto]. }
  split.
  - intros []; split; intro H; try discriminate; simpl in H; congruence.
  - split; [|reflexivity]. intros _. simpl. tauto.
Qed.

Lemma role_allowed : forall role,
  match role with
  | Some r => mem r ["student"; "faculty"]
  | None => false
  end = true <-> role = Some "student" \/ role = Some "faculty".
Proof.
  intros [r|].
  - rewrite mem_In. simpl. split.
    + intros [<-|[<-|[]]]; auto.
    + intros [[= <-]|[= <-]]; auto.
  - split; [discriminate | intros [H|H]; discriminate H].
Qed.

Lemma truthy_length : forall s, truthy s = true <-> 0 < String.length s.
Proof.
  intros [|c s]; simpl; split; intros H; try reflexivity; try discriminate; lia.
Qed.

(** The three outcomes of the checks that open [submit_complaint]. *)
Lemma submit_complaint_cases : forall ml uid role ft fd,
  let title := strip isspace (form_get ft) in
  let description := strip isspace (form_get fd) in
  let labels :=
    match classify_user_query ml (title ++ " " ++ description)%string with
    | Returned labels => labels
    | Raised _ => ("Technical", "medium")
    end in
  (~ (role = Some "student" \/ role = Some "faculty") /\
   submit_complaint ml uid role ft fd
   = SubmitReply 403 "Only students and faculty can submit complaints") \/
  ((role = Some "student" \/ role = Some "faculty") /\
   (String.length title < 5 \/ String.length description < 10) /\
   exists message, submit_complaint ml uid role ft fd = SubmitReply 400 message) \/
  ((role = Some "student" \/ role = Some "faculty") /\
   5 <= String.length title /\ 10 <= String.length description /\
   submit_complaint ml uid role ft fd
   = match Complaints.new uid title description (fst labels) (snd labels) with
     | Some complaint => SubmitCreated complaint (fst labels) (snd labels)
     | None => SubmitReply 500 "Internal server error"
     end).
Proof.
  intros ml uid role ft fd title description labels.
  unfold submit_complaint. fold title description. fold labels.
  pose proof (role_allowed role) as Hrole.
  destruct (match role with
            | Some r => mem r ["student"; "faculty"]
            | None => false
            end) eqn:Er; cbn [negb].
  2:{ left. split; [|reflexivity]. intros H. apply Hrole in H. discriminate. }
  right. assert (Hr : role = Some "student" \/ role = Some "faculty")
    by now apply Hrole.
  destruct (truthy title) eqn:Et; cbn [negb orb].
  2:{ left. split; [assumption|]. split; [|eauto].
      left. destruct title; [simpl; lia | discriminate]. }
  destruct (truthy description) eqn:Ed; cbn [negb].
  2:{ left. split; [assumption|]. split; [|eauto].
      right. destruct description; [simpl; lia | discriminate]. }
  destruct (String.length title <? 5) eqn:Lt; cbn [orb].
  { left. apply Nat.ltb_lt in Lt. split; [assumption|]. split; eauto. }
  destruct (String.length description <? 10) eqn:Ld.
  { left. apply Nat.ltb_lt in Ld. split; [assumption|]. split; eauto. }
  right. apply Nat.ltb_ge in Lt, Ld. auto.
Qed.

Lemma complaint_new_spec : forall uid t d cat pri,
  (forall c, Complaints.new uid t d cat pri = Some c ->
     Complaints.user_id c = uid /\ Complaints.title c = t /\
     Complaints.description c = d /\
     Complaints.category_value (Complaints.category c) = cat /\
     Complaints.priority_value (Complaints.priority c) = pri) /\
  (Complaints.new uid t d cat pri = None <->
   ~ In cat CATEGORIES \/ ~ In pri PRIORITIES).
Proof.
  intros uid t d cat pri. unfold Complaints.new.
  destruct (category_of_value_spec cat) as [Hc Hcn].
  destruct (priority_of_value_spec pri) as [Hp Hpn].
  destruct (Complaints.category_of_value cat) as [c0|].
  - destruct (Complaints.priority_of_value pri) as [p0|].
    + split.
      * intros c [= <-]. simpl.
        repeat split; [now apply Hc | now apply Hp].
      * split; [discriminate|]. intros [H|H].
        -- apply Hcn in H. discriminate.
        -- apply Hpn in H. discriminate.
    + split; [discriminate|]. split; [|reflexivity].
      intros _. right. now apply Hpn.
  - split; [discriminate|]. split; [|reflexivity].
    intros _. left. now apply Hcn.
Qed.

(** X9. The checks of [submit_complaint], in the order the view makes them.
    A role other than student or faculty is answered 403 whatever the
    form holds.  Otherwise a title of fewer than 5 characters or a
    description of fewer than 10, both counted after trimming surrounding
    whitespace, is answered 400 and nothing is classified.  When the view
    gets as far as creating the complaint, the complaint holds the caller's
    id and the trimmed title and description, and the values of its
    category and priority members are the labels reported under
    "classification". *)
Theorem submit_complaint_checks : forall ml uid role ft fd,
  let title := strip isspace (form_get ft) in
  let description := strip isspace (form_get fd) in
  let allowed := role = Some "student" \/ role = Some "faculty" in
  (~ allowed <->
   submit_complaint ml uid role ft fd
   = SubmitReply 403 "Only students and faculty can submit complaints") /\
  (allowed ->
   String.length title < 5 \/ String.length description < 10 ->
   exists message, submit_complaint ml uid role ft fd = SubmitReply 400 message) /\
  (forall c cat pri,
     submit_complaint ml uid role ft fd = SubmitCreated c cat pri ->
     allowed /\ 5 <= String.length title /\ 10 <= String.length description /\
     Complaints.user_id c = uid /\
     Complaints.title c = title /\
     Complaints.description c = description /\
     Complaints.category_value (Complaints.category c) = cat /\
     Complaints.priority_value (Complaints.priority c) = pri).
Proof.
  intros ml uid role ft fd title description allowed.
  subst title description allowed.
  destruct (submit_complaint_cases ml uid role ft fd)
    as [[Hr E]|[(Hr & Hl & m & E)|(Hr & Ht & Hd & E)]].
  - split; [split; [intros _; exact E | tauto]|].
    split; [tauto|]. intros c cat pri H. rewrite E in H. discriminate H.
  - split.
    { split; [tauto|]. rewrite E. intros H. discriminate H. }
    split; [eauto|]. intros c cat pri H. rewrite E in H. discriminate H.
  - set (labels := match classify_user_query ml _ with
                   | Returned l => l
                   | Raised _ => ("Technical", "medium")
                   end) in E.
    destruct (complaint_new_spec uid (strip isspace (form_get ft))
                (strip isspace (form_get fd)) (fst labels) (snd labels))
      as [Hnew _].
    split.
    { split; [tauto|]. rewrite E.
      destruct (Complaints.new _ _ _ _ _); intros H; discriminate H. }
    split; [intros _ Hl; lia|].
    intros c cat pri H. rewrite E in H.
    destruct (Complaints.new _ _ _ _ _) as [c0|]; [|discriminate H].
    injection H as <- <- <-.
    destruct (Hnew c0 eq_refl) as (H1 & H2 & H3 & H4 & H5). auto 10.
Qed.

Lemma submit_complaint_checks_witness :
  exists message,
    submit_complaint (init CsvMissing) (Some 5%Z) (Some "student")
                     (Some "  Wifi ") (Some "The wifi is down in the lab")
    = SubmitReply 400 message.
Proof.
  destruct (submit_complaint_checks (init CsvMissing) (Some 5%Z)
              (Some "student") (Some "  Wifi ")
              (Some "The wifi is down in the lab")) as (_ & H & _).
  apply H.
  - left. reflexivity.
  - left. simpl. lia.
Defined.

(** X10. With the service the constructor builds, a submission that passes
    the checks always has its complaint created when the labels of the
    pattern tables are within the enumerations, as they are with the
    default tables: the classifier has returned, its labels are values of
    [ComplaintCategory] and [ComplaintPriority], and they are the ones the
    complaint carries. *)
Theorem submit_complaint_creates : forall file uid role ft fd,
  let ml := init file in
  let title := strip isspace (form_get ft) in
  let description := strip isspace (form_get fd) in
  incl (keys (category_patterns ml)) CATEGORIES ->
  incl (keys (priority_patterns ml)) PRIORITIES ->
  role = Some "student" \/ role = Some "faculty" ->
  5 <= String.length title -> 10 <= String.length description ->
  exists c cat pri,
    submit_complaint ml uid role ft fd = SubmitCreated c cat pri /\
    classify_user_query ml (title ++ " " ++ description)%string
    = Returned (cat, pri) /\
    Complaints.category_value (Complaints.category c) = cat /\
    Complaints.priority_value (Complaints.priority c) = pri.
Proof.
  intros file uid role ft fd ml title description.
  subst title description. intros Hci Hpi Hr Ht Hd.
  set (title := strip isspace (form_get ft)) in *.
  set (description := strip isspace (form_get fd)) in *.
  destruct (submit_complaint_cases ml uid role ft fd)
    as [[Hr' _]|[(_ & Hl & _)|(_ & _ & _ & E)]];
    [tauto | fold title description in Hl; lia |].
  fold title description in E.
  destruct (classify_returns file (title ++ " " ++ description)%string)
    as (cat & pri & Hcl & Hc & Hp). fold ml in Hcl, Hc, Hp.
  rewrite Hcl in E. cbn [fst snd] in E.
  destruct (complaint_new_spec uid title description cat pri) as [Hnew Hnone].
  destruct (Complaints.new uid title description cat pri) as [c|] eqn:En.
  - exists c, cat, pri. destruct (Hnew c eq_refl) as (_ & _ & _ & H4 & H5).
    auto.
  - exfalso. destruct (proj1 Hnone eq_refl) as [H|H]; apply H.
    + destruct Hc as [Hc|Hc]; auto.
    + destruct Hp as [Hp|Hp]; auto.
Qed.

Lemma submit_complaint_creates_witness :
  exists c cat pri,
    submit_complaint (init CsvMissing) (Some 5%Z) (Some "faculty")
                     (Some "Projector") (Some "The projector is damaged")
    = SubmitCreated c cat pri /\
    Complaints.category_value (Complaints.category c) = cat.
Proof.
  destruct (submit_complaint_creates CsvMissing (Some 5%Z) (Some "faculty")
              (Some "Projector") (Some "The projector is damaged"))
    as (c & cat & pri & H & _ & Hc & _).
  - intros k Hk. simpl in *. tauto.
  - intros k Hk. simpl in *. tauto.
  - right. reflexivity.
  - simpl. lia.
  - simpl. lia.
  - exists c, cat, pri. auto.
Defined.

(** X11. With the service the constructor builds, the fallback pair
    (Technical, medium) of [submit_complaint] is never substituted, since
    the classifier has always returned; and when a label it returned is
    not a value of the enumerations (a corpus can bring such labels in),
    a submission that passed the checks is answered 500: the constructor
    of the complaint raises and no complaint is created. *)
Theorem submit_complaint_foreign_label : forall file uid role ft fd,
  let ml := init file in
  let title := strip isspace (form_get ft) in
  let description := strip isspace (form_get fd) in
  role = Some "student" \/ role = Some "faculty" ->
  5 <= String.length title -> 10 <= String.length description ->
  exists cat pri,
    classify_user_query ml (title ++ " " ++ description)%string
    = Returned (cat, pri) /\
    (~ In cat CATEGORIES \/ ~ In pri PRIORITIES ->
     submit_complaint ml uid role ft fd
     = SubmitReply 500 "Internal server error") /\
    (In cat CATEGORIES -> In pri PRIORITIES ->
     exists c, submit_complaint ml uid role ft fd = SubmitCreated c cat pri).
Proof.
  intros file uid role ft fd ml title description.
  subst title description. intros Hr Ht Hd.
  set (title := strip isspace (form_get ft)) in *.
  set (description := strip isspace (form_get fd)) in *.
  destruct (submit_complaint_cases ml uid role ft fd)
    as [[Hr' _]|[(_ & Hl & _)|(_ & _ & _ & E)]];
    [tauto | fold title description in Hl; lia |].
  fold title description in E.
  destruct (classify_returns file (title ++ " " ++ description)%string)
    as (cat & pri & Hcl & _). fold ml in Hcl.
  rewrite Hcl in E. cbn [fst snd] in E.
  exists cat, pri. split; [exact Hcl|].
  destruct (complaint_new_spec uid title description cat pri) as [_ Hnone].
  destruct (Complaints.new uid title description cat pri) as [c|].
  - split.
    + intros H. apply Hnone in H. discriminate.
    + intros _ _. now exists c.
  - split; [intros _; exact E|].
    intros Hc Hp. destruct (proj1 Hnone eq_refl); contradiction.
Qed.

Lemma submit_complaint_foreign_label_witness :
  submit_complaint
    (init (CsvLines ["query,category,priority";
                     "printer printer,Library,whenever"]))
    (Some 5%Z) (Some "student") (Some "printer") (Some "printer jam again")
  = SubmitReply 500 "Internal server error".
Proof.
  destruct (submit_complaint_foreign_label
              (CsvLines ["query,category,priority";
                         "printer printer,Library,whenever"])
              (Some 5%Z) (Some "student") (Some "printer")
              (Some "printer jam again"))
    as (cat & pri & Hcl & H500 & _).
  - left. reflexivity.
  - simpl. lia.
  - simpl. lia.
  - apply H500. vm_compute in Hcl. injection Hcl as <- <-.
    left. intros [H|[H|[H|[H|[]]]]]; discriminate H.
Defined.

(** * Beyond the claims: when the priority falls back to medium *)

Lemma set_In_same : forall {V} k (v : V) d, In (k, v) (set k v d).
Proof.
  intros V k v. induction d as [|[k0 v0] r IH]; simpl; [now left|].
  destruct (String.eqb_spec k0 k) as [->|Hne]; [now left | now right].
Qed.

Lemma set_Forall : forall {V} (P : string * V -> Prop) k v d,
  P (k, v) -> Forall P d -> Forall P (set k v d).
Proof.
  intros V P k v. induction d as [|[k0 v0] r IH]; intros Hkv Hd; simpl.
  - now constructor.
  - inversion Hd as [|? ? H0 Hr]; subst.
    destruct (String.eqb_spec k0 k) as [->|Hne]; constructor; auto.
Qed.

Lemma get_default_nonneg : forall l (d : dict Q),
  Forall (fun kv => (0 <= snd kv)%Q) d -> (0 <= get_default l 0%Q d)%Q.
Proof.
  intros l d H. unfold get_default.
  destruct (get l d) as [v|] eqn:E; [|apply Qle_refl].
  apply get_Some_In in E. rewrite Forall_forall in H. apply (H _ E).
Qed.

Lemma boost_nonneg : forall l a d,
  (0 < a)%Q ->
  Forall (fun kv => (0 <= snd kv)%Q) d ->
  Forall (fun kv => (0 <= snd kv)%Q) (boost l a d) /\
  exists v, In (l, v) (boost l a d) /\ (0 < v)%Q.
Proof.
  intros l a d Ha Hd. pose proof (get_default_nonneg l d Hd) as Hg.
  assert (Hv : (0 < get_default l 0 d + a)%Q).
  { apply (Qlt_le_trans _ (0 + a)%Q).
    - now rewrite Qplus_0_l.
    - apply Qplus_le_l. exact Hg. }
  unfold boost. split.
  - apply set_Forall; [|assumption]. simpl. now apply Qlt_le_weak.
  - eexists. split; [apply set_In_same | exact Hv].
Qed.

Lemma live_priority_context_scores : forall ql d,
  Forall (fun kv => (0 <= snd kv)%Q) d ->
  let t1 := any_in ["urgent"; "emergency"; "immediately"; "asap"] ql in
  let t2 := any_in ["not working"; "damaged"] ql in
  let t3 := any_in ["important"; "needed"; "required"; "missing"] ql in
  Forall (fun kv => (0 <= snd kv)%Q) (live_priority_context ql d) /\
  (t1 = false -> t2 = false -> t3 = false -> live_priority_context ql d = d) /\
  ((exists k v, In (k, v) d /\ (0 < v)%Q)
   \/ t1 = true \/ t2 = true \/ t3 = true ->
   exists k v, In (k, v) (live_priority_context ql d) /\ (0 < v)%Q).
Proof.
  intros ql d Hd t1 t2 t3. unfold live_priority_context. fold t1 t2 t3.
  assert (Hstep : forall (t : bool) l a d0,
            (0 < a)%Q ->
            Forall (fun kv => (0 <= snd kv)%Q) d0 ->
            let d1 := if t then boost l a d0 else d0 in
            Forall (fun kv => (0 <= snd kv)%Q) d1 /\
            ((exists k v, In (k, v) d0 /\ (0 < v)%Q) \/ t = true ->
             exists k v, In (k, v) d1 /\ (0 < v)%Q)).
  { intros t l a d0 Ha H0. destruct t; simpl.
    - destruct (boost_nonneg l a d0 Ha H0) as [Hn (v & Hin & Hv)].
      split; [assumption|]. intros _. now exists l, v.
    - split; [assumption|]. intros [H|H]; [assumption | discriminate]. }
  destruct (Hstep t1 "urgent" 5%Q d eq_refl Hd) as [H1 P1].
  destruct (Hstep t2 "urgent" 3%Q _ eq_refl H1) as [H2 P2].
  destruct (Hstep t3 "high" 2%Q _ eq_refl H2) as [H3 P3].
  split; [exact H3|]. split.
  - now intros -> -> ->.
  - intros [H|[H|[H|H]]].
    + apply P3. left. apply P2. left. apply P1. now left.
    + apply P3. left. apply P2. left. apply P1. now right.
    + apply P3. left. apply P2. now right.
    + apply P3. now right.
Qed.

Lemma quiet_priority_score : forall patterns words,
  (forall w, In w words -> mem w patterns = false) ->
  (priority_score patterns words == 0)%Q.
Proof.
  intros patterns words H. rewrite priority_score_formula.
  unfold priority_formula, exact_bonus.
  induction words as [|w ws IH]; [reflexivity|].
  cbn [map Qsum fold_right]. rewrite (H w (or_introl eq_refl)).
  fold (Qsum (map (fun w0 => if mem w0 patterns then 2%Q else 0%Q) ws)).
  rewrite Qplus_0_l. apply IH. intros w' Hw'. apply H. now right.
Qed.

Lemma priority_score_nonneg : forall patterns words,
  (0 <= priority_score patterns words)%Q /\
  ((exists w, In w words /\ mem w patterns = true) ->
   (0 < priority_score patterns words)%Q).
Proof.
  intros patterns words.
  assert (H : (0 <= priority_formula patterns words)%Q /\
              ((exists w, In w words /\ mem w patterns = true) ->
               (0 < priority_formula patterns words)%Q)).
  { unfold priority_formula, exact_bonus.
    induction words as [|w ws [IH0 IH1]].
    - split; [apply Qle_refl | intros (w & [] & _)].
    - cbn [map Qsum fold_right].
      fold (Qsum (map (fun w0 => if mem w0 patterns then 2%Q else 0%Q) ws)).
      destruct (mem w patterns) eqn:E.
      + assert (Hpos : (0 < 2 + Qsum (map (fun w0 => if mem w0 patterns
                                                     then 2%Q else 0%Q) ws))%Q).
        { apply (Qlt_le_trans _ (2 + 0)%Q); [reflexivity|].
          apply Qplus_le_r. exact IH0. }
        split; [now apply Qlt_le_weak | intros _; exact Hpos].
      + rewrite Qplus_0_l. split; [exact IH0|].
        intros (w' & [<-|Hin] & Hm); [congruence|]. apply IH1. eauto. }
  destruct H as [H0 H1]. split.
  - now rewrite priority_score_formula.
  - intros Hex. rewrite priority_score_formula. auto.
Qed.

Lemma first_max_bounds : forall d k m,
  first_max d k m ->
  In (k, m) d /\ forall k' v, In (k', v) d -> (v <= m)%Q.
Proof.
  intros d k m (before & after & -> & Hb & Ha). split.
  - apply in_or_app. right. now left.
  - intros k' v Hin. rewrite Forall_forall in Hb, Ha.
    apply in_app_or in Hin as [Hin|[Hin|Hin]].
    + apply Qlt_le_weak. apply (Hb _ Hin).
    + injection Hin as _ <-. apply Qle_refl.
    + apply (Ha _ Hin).
Qed.

(** X12. When the priority falls back to "medium".  On the scoring path,
    with the service the constructor builds: if no extracted word is an
    entry of a priority pattern list and the text has none of the words
    urgent, emergency, immediately, asap, "not working", damaged,
    important, needed, required, missing, every priority score is zero
    and the priority is "medium"; as soon as a word is such an entry or
    one of these words occurs, the priority returned is a label whose
    adjusted score is strictly positive. *)
Theorem priority_fallback_rule : forall file query,
  let self := init file in
  let words := extract_words query in
  let ql := lower query in
  rule_based_classification ql words = None ->
  ((forall label patterns w,
      In (label, patterns) (priority_patterns self) ->
      In w words -> mem w patterns = false) ->
   any_in ["urgent"; "emergency"; "immediately"; "asap"] ql = false ->
   any_in ["not working"; "damaged"] ql = false ->
   any_in ["important"; "needed"; "required"; "missing"] ql = false ->
   exists c, classify_user_query self query = Returned (c, "medium")) /\
  ((exists label patterns w,
      In (label, patterns) (priority_patterns self) /\
      In w words /\ mem w patterns = true)
   \/ any_in ["urgent"; "emergency"; "immediately"; "asap"] ql = true
   \/ any_in ["not working"; "damaged"] ql = true
   \/ any_in ["important"; "needed"; "required"; "missing"] ql = true ->
   exists c p v,
     classify_user_query self query = Returned (c, p) /\
     In (p, v) (adjusted_priority_scores self query) /\ (0 < v)%Q).
Proof.
  intros file query self words ql Hrule.
  destruct (init_tables_ok file) as (_ & Hnd & _ & Hne). fold self in Hnd, Hne.
  pose proof (priority_scores_not_nil self query Hne) as Hnn.
  assert (Hadj : adjusted_priority_scores self query
                 = live_priority_context ql
                     (map (fun lp => (fst lp, priority_score (snd lp) words))
                          (priority_patterns self))).
  { unfold adjusted_priority_scores. fold words ql.
    rewrite (priority_context_on_scoring_path _ _ _ _ Hrule).
    now rewrite score_table_as_map. }
  assert (Hnonneg : Forall (fun kv => (0 <= snd kv)%Q)
                      (map (fun lp => (fst lp, priority_score (snd lp) words))
                           (priority_patterns self))).
  { apply Forall_forall. intros kv Hin.
    apply in_map_iff in Hin as (lp & <- & _). simpl.
    apply priority_score_nonneg. }
  destruct (live_priority_context_scores ql _ Hnonneg) as (_ & Hquiet & Hloud).
  assert (Hcl : classify_user_query self query = scoring_path self query).
  { unfold classify_user_query. fold words ql. now rewrite Hrule. }
  rewrite Hcl. unfold scoring_path.
  destruct (adjusted_priority_scores self query) as [|[k v] rest] eqn:E;
    [now elim Hnn|].
  destruct (first_max_bounds _ _ _ (max_key_first_max k v rest)) as [Hin Hmax].
  split.
  - intros Hwords T1 T2 T3.
    exists (predicted_category self query).
    rewrite (Hquiet T1 T2 T3) in Hadj.
    assert (Hm : (max_value_from v (values rest) <= 0)%Q).
    { rewrite Hadj in Hin. apply in_map_iff in Hin as ([l pats] & Hlp & Hl).
      injection Hlp as _ <-. simpl.
      rewrite quiet_priority_score; [apply Qle_refl|].
      intros w Hw. now apply (Hwords l pats w). }
    apply Qgtb_le in Hm. now rewrite Hm.
  - intros Hsome.
    assert (Hpos : exists k' v', In (k', v') ((k, v) :: rest) /\ (0 < v')%Q).
    { rewrite Hadj. apply Hloud.
      destruct Hsome as [(l & pats & w & Hlp & Hw & Hm)|H]; [left | now right].
      exists l, (priority_score pats words). split.
      - apply (in_map (fun lp => (fst lp, priority_score (snd lp) words)))
          in Hlp. exact Hlp.
      - apply priority_score_nonneg. now exists w. }
    destruct Hpos as (k' & v' & Hin' & Hv').
    assert (Hm : (0 < max_value_from v (values rest))%Q).
    { eapply Qlt_le_trans; [exact Hv' | apply (Hmax k' v' Hin')]. }
    exists (predicted_category self query), (max_key_from k v rest),
      (max_value_from v (values rest)).
    apply Qgtb_lt in Hm as Hg. rewrite Hg. auto.
Qed.

Lemma priority_fallback_rule_witness :
  exists c,
    classify_user_query (init CsvMissing) "the projector shows nothing"
    = Returned (c, "medium").
Proof.
  destruct (priority_fallback_rule CsvMissing "the projector shows nothing")
    as [Hquiet _].
  - reflexivity.
  - apply Hquiet; try reflexivity.
    intros label patterns w Hlp Hw.
    assert (Hall : forallb (fun lp =>
                     forallb (fun w => negb (mem w (snd lp)))
                             (extract_words "the projector shows nothing"))
                     (priority_patterns (init CsvMissing)) = true)
      by reflexivity.
    rewrite forallb_forall in Hall. specialize (Hall _ Hlp).
    rewrite forallb_forall in Hall. specialize (Hall _ Hw).
    simpl in Hall. now apply negb_true_iff in Hall.
Defined.

(** * Beyond the claims: the order of the score dicts *)

Lemma boost_appends : forall (labels table_keys : list string) l a d,
  In l labels ->
  (exists extra,
     keys d = table_keys ++ extra /\
     Forall (fun x => In x labels /\ ~ In x table_keys) extra /\
     NoDup (keys d)) ->
  exists extra,
    keys (boost l a d) = table_keys ++ extra /\
    Forall (fun x => In x labels /\ ~ In x table_keys) extra /\
    NoDup (keys (boost l a d)).
Proof.
  intros labels table_keys l a d Hl (extra & Hk & Hex & Hnd).
  unfold boost. rewrite keys_set.
  destruct (has_key l d) eqn:E; [now exists extra|].
  assert (Hnot : ~ In l (keys d)).
  { intros Hin. apply has_key_keys in Hin. congruence. }
  exists (extra ++ [l]). split; [now rewrite Hk, app_assoc|]. split.
  - apply Forall_app. split; [assumption|]. constructor; [|constructor].
    split; [assumption|]. intros Hin. apply Hnot. rewrite Hk.
    apply in_or_app. now left.
  - apply NoDup_app; [assumption | repeat constructor; intros [] |].
    intros x Hx [<-|[]]. contradiction.
Qed.

(** X13. The context rules never reorder or drop a label: in the adjusted
    score dicts of a service the constructor builds, the labels of the
    pattern table come first, in the order of the table, and the labels a
    boost had to add (fixed labels that are not keys of the table) come
    after them, each once.  With the first-maximum selection this fixes
    how ties are broken: a table label wins over an added label, an
    earlier table label over a later one. *)
Theorem score_dict_order : forall file query,
  let self := init file in
  (exists added,
     keys (adjusted_category_scores self query)
     = keys (category_patterns self) ++ added /\
     Forall (fun l => In l CATEGORIES /\ ~ In l (keys (category_patterns self)))
            added /\
     NoDup (keys (adjusted_category_scores self query))) /\
  (exists added,
     keys (adjusted_priority_scores self query)
     = keys (priority_patterns self) ++ added /\
     Forall (fun l => In l ["urgent"; "high"]
                      /\ ~ In l (keys (priority_patterns self)))
            added /\
     NoDup (keys (adjusted_priority_scores self query))).
Proof.
  intros file query self.
  destruct (init_tables_ok file) as (Hc & Hp & _ & _). fold self in Hc, Hp.
  split.
  - unfold adjusted_category_scores.
    apply (apply_context_rules_inv
             (fun d => exists added,
                keys d = keys (category_patterns self) ++ added /\
                Forall (fun l => In l CATEGORIES
                                 /\ ~ In l (keys (category_patterns self)))
                       added /\
                NoDup (keys d))).
    + intros l a d Hl Hd. now apply (boost_appends CATEGORIES).
    + exists []. rewrite score_table_as_map by assumption.
      assert (Hk : keys (map (fun lp : string * list string =>
                                (fst lp, category_score (snd lp)
                                           (extract_words query)))
                             (category_patterns self))
                   = keys (category_patterns self)).
      { unfold keys. rewrite map_map. reflexivity. }
      rewrite Hk, app_nil_r. repeat split; [constructor | assumption].
  - unfold adjusted_priority_scores.
    apply (apply_priority_context_inv
             (fun d => exists added,
                keys d = keys (priority_patterns self) ++ added /\
                Forall (fun l => In l ["urgent"; "high"]
                                 /\ ~ In l (keys (priority_patterns self)))
                       added /\
                NoDup (keys d))).
    + intros l a d Hl Hd. now apply (boost_appends ["urgent"; "high"]).
    + exists []. rewrite score_table_as_map by assumption.
      assert (Hk : keys (map (fun lp : string * list string =>
                                (fst lp, priority_score (snd lp)
                                           (extract_words query)))
                             (priority_patterns self))
                   = keys (priority_patterns self)).
      { unfold keys. rewrite map_map. reflexivity. }
      rewrite Hk, app_nil_r. repeat split; [constructor | assumption].
Qed.

(** * Beyond the claims: the file check *)

Lemma contains_dot : forall sep f,
  contains (String sep EmptyString) f = true <-> rsplit_once sep f <> None.
Proof.
  intros sep. induction f as [|c r IH].
  - simpl. split; [discriminate | intros H; now elim H].
  - cbn [contains rsplit_once]. rewrite orb_true_iff, IH.
    assert (Hp : String.prefix (String sep EmptyString) (String c r)
                 = Ascii.eqb c sep).
    { simpl. destruct (ascii_dec sep c) as [->|Hne].
      - rewrite Ascii.eqb_refl. now destruct r.
      - destruct (Ascii.eqb_spec c sep); [now subst | reflexivity]. }
    rewrite Hp.
    destruct (rsplit_once sep r) as [[b a]|].
    + split; [discriminate | intros _; right; discriminate].
    + destruct (Ascii.eqb c sep).
      * split; [discriminate | now left].
      * split; [intros [H|H]; [discriminate | now elim H] | intros H; now elim H].
Qed.

Lemma rsplit_once_none : forall sep s,
  all_chars (fun x => negb (Ascii.eqb x sep)) s = true ->
  rsplit_once sep s = None.
Proof.
  intros sep. induction s as [|c r IH]; intros H; [reflexivity|].
  simpl in H. apply andb_true_iff in H as [Hc Hr].
  apply negb_true_iff in Hc. simpl. now rewrite (IH Hr), Hc.
Qed.

Lemma rsplit_once_last : forall sep name ext,
  all_chars (fun x => negb (Ascii.eqb x sep)) ext = true ->
  rsplit_once sep (name ++ String sep ext) = Some (name, ext).
Proof.
  intros sep name ext Hext. induction name as [|c name IH].
  - simpl. now rewrite (rsplit_once_none _ _ Hext), Ascii.eqb_refl.
  - simpl. now rewrite IH.
Qed.

Lemma file_type_of_known : forall e t,
  file_type_of e = Some t ->
  In t ["images"; "documents"; "spreadsheets"; "presentations"; "archives";
        "audio"; "video"] /\ t <> "unknown".
Proof.
  intros e t H. unfold file_type_of in H.
  destruct (find _ allowed_extensions) as [[t' es]|] eqn:F; [|discriminate].
  injection H as <-. apply find_some in F as [Hin _].
  simpl in Hin.
  repeat (destruct Hin as [Hin|Hin];
          [injection Hin as <- _; split; [simpl; tauto | discriminate]|]).
  contradiction.
Qed.

(** X14. The file check of the upload.  [is_allowed_file] and
    [get_file_type] never raise: the subscript after [rsplit] is safe.  A
    name without a dot (or no name) has no extension; otherwise only the
    text after the last dot counts, without regard to letter case, so a
    name ending in ".pdf.exe" is judged as "exe" and a name ending in a dot
    has the empty extension.  The check accepts a name exactly when
    [get_file_type] knows its type, and then both give the same type, one
    of the seven of the table. *)
Theorem file_check_by_last_extension :
  (forall filename,
     (exists ok answer, is_allowed_file filename = Returned (ok, answer)) /\
     (exists t, get_file_type filename = Returned t)) /\
  (forall name ext,
     all_chars (fun x => negb (Ascii.eqb x ".")) ext = true ->
     is_allowed_file (Some (name ++ "." ++ ext)%string)
     = match file_type_of (lower ext) with
       | Some t => Returned (true, t)
       | None => Returned (false, "File type not allowed")
       end) /\
  (forall f,
     contains "." f = false ->
     is_allowed_file (Some f) = Returned (false, "No file extension found")) /\
  (forall filename t,
     is_allowed_file filename = Returned (true, t) <->
     get_file_type filename = Returned t /\ t <> "unknown") /\
  (forall filename t,
     is_allowed_file filename = Returned (true, t) ->
     In t ["images"; "documents"; "spreadsheets"; "presentations"; "archives";
           "audio"; "video"]).
Proof.
  assert (Hsafe : forall f, contains "." f = true ->
                   exists b a, rsplit_once "." f = Some (b, a)).
  { intros f H. apply (contains_dot "."%char) in H.
    destruct (rsplit_once "." f) as [[b a]|]; [eauto | now elim H]. }
  split; [|split; [|split; [|split]]].
  - intros [f|]; [|split; repeat eexists].
    unfold is_allowed_file, get_file_type.
    destruct (truthy f); cbn [negb orb]; [|split; repeat eexists].
    destruct (contains "." f) eqn:E; cbn [negb]; [|split; repeat eexists].
    destruct (Hsafe f E) as (b & a & ->).
    destruct (file_type_of (lower a)); split; repeat eexists.
  - intros name ext Hext. unfold is_allowed_file.
    assert (Ht : truthy (name ++ "." ++ ext) = true) by (now destruct name).
    assert (Hc : contains "." (name ++ "." ++ ext) = true).
    { apply contains_occurs. now exists name, ext. }
    rewrite Ht, Hc. cbn [negb orb].
    change (name ++ "." ++ ext)%string with (name ++ String "." ext)%string.
    now rewrite (rsplit_once_last "."%char name ext Hext).
  - intros f H. unfold is_allowed_file. rewrite H.
    now rewrite orb_true_r.
  - intros [f|] t; unfold is_allowed_file, get_file_type.
    2:{ split; [discriminate | intros [[= <-] H]; now elim H]. }
    destruct (negb (truthy f) || negb (contains "." f)).
    { split; [discriminate | intros [[= <-] H]; now elim H]. }
    destruct (rsplit_once "." f) as [[b a]|];
      [|split; [discriminate | intros [H _]; discriminate H]].
    destruct (file_type_of (lower a)) as [t0|] eqn:E.
    + apply file_type_of_known in E as [_ Hne]. split.
      * intros [= <-]. auto.
      * intros [[= <-] _]. reflexivity.
    + split; [discriminate | intros [[= <-] H]; now elim H].
  - intros [f|] t; unfold is_allowed_file; [|discriminate].
    destruct (negb (truthy f) || negb (contains "." f)); [discriminate|].
    destruct (rsplit_once "." f) as [[b a]|]; [|discriminate].
    destruct (file_type_of (lower a)) as [t0|] eqn:E; [|discriminate].
    intros [= <-]. now apply file_type_of_known in E.
Qed.

Lemma file_check_by_last_extension_witness :
  is_allowed_file (Some "report.final.PDF") = Returned (true, "documents") /\
  is_allowed_file (Some "report.pdf.exe")
  = Returned (false, "File type not allowed").
Proof.
  destruct file_check_by_last_extension as (_ & H & _).
  split.
  - apply (H "report.final" "PDF"). reflexivity.
  - apply (H "report.pdf" "exe"). reflexivity.
Defined.

(** * Beyond the claims: the enumerations and the two tallies *)

(** X15. The enumerations of [models/complaint.py] against the labels of
    the classifier.  [ComplaintCategory(v)] and [ComplaintPriority(v)]
    succeed exactly for the four category labels and the four priority
    labels, and [.value] gives back the label a member was made from, so
    [to_dict] reports the label the complaint was created with.  The keys
    of the default pattern tables are exactly these values. *)
Theorem complaint_enums_round_trip :
  (forall v c,
     Complaints.category_of_value v = Some c <->
     Complaints.category_value c = v) /\
  (forall v p,
     Complaints.priority_of_value v = Some p <->
     Complaints.priority_value p = v) /\
  (forall v, Complaints.category_of_value v = None <-> ~ In v CATEGORIES) /\
  (forall v, Complaints.priority_of_value v = None <-> ~ In v PRIORITIES) /\
  (forall uid t d cat pri c,
     Complaints.new uid t d cat pri = Some c ->
     Complaints.category_value (Complaints.category c) = cat /\
     Complaints.priority_value (Complaints.priority c) = pri) /\
  (forall l, In l (keys default_category_patterns) <->
             exists c, Complaints.category_value c = l) /\
  (forall l, In l (keys default_priority_patterns) <->
             exists p, Complaints.priority_value p = l).
Proof.
  split; [intros v c; apply category_of_value_spec|].
  split; [intros v p; apply priority_of_value_spec|].
  split; [intros v; apply category_of_value_spec|].
  split; [intros v; apply priority_of_value_spec|].
  split.
  { intros uid t d cat pri c H.
    destruct (complaint_new_spec uid t d cat pri) as [Hnew _].
    now destruct (Hnew c H) as (_ & _ & _ & H4 & H5). }
  split.
  - intros l. split.
    + simpl. intros [<-|[<-|[<-|[<-|[]]]]];
        [exists Complaints.TECHNICAL | exists Complaints.ACADEMIC
         | exists Complaints.HOSTEL_MESS | exists Complaints.MAINTENANCE];
        reflexivity.
    + intros [[] <-]; simpl; tauto.
  - intros l. split.
    + simpl. intros [<-|[<-|[<-|[<-|[]]]]];
        [exists Complaints.URGENT | exists Complaints.HIGH
         | exists Complaints.MEDIUM | exists Complaints.LOW];
        reflexivity.
    + intros [[] <-]; simpl; tauto.
Qed.

Lemma complaint_enums_round_trip_witness :
  Complaints.category_of_value "Hostel/Mess" = Some Complaints.HOSTEL_MESS /\
  Complaints.category_of_value "hostel/mess" = None.
Proof.
  destruct complaint_enums_round_trip as (Hsome & _ & Hnone & _).
  split.
  - apply Hsome. reflexivity.
  - apply Hnone. intros [H|[H|[H|[H|[]]]]]; discriminate H.
Defined.

Lemma count_item_for_ext : forall label_of label_of' t a b,
  query a = query b -> label_of a = label_of' b ->
  count_item_for label_of t a = count_item_for label_of' t b.
Proof.
  intros label_of label_of' t a b Hq Hl. unfold count_item_for.
  now rewrite Hq, Hl.
Qed.

Lemma count_loop_ext : forall label_of label_of' data data' t,
  Forall2 (fun a b => query a = query b /\ label_of a = label_of' b)
          data data' ->
  fold_left (count_item_for label_of) data t
  = fold_left (count_item_for label_of') data' t.
Proof.
  intros label_of label_of' data data' t H. revert t.
  induction H as [|a b data data' [Hq Hl] _ IH]; intros t; [reflexivity|].
  simpl. rewrite (count_item_for_ext label_of label_of' t a b Hq Hl).
  apply IH.
Qed.

(** X16. The single counting loop of [build_patterns] keeps two independent
    tallies: the category table that results depends only on the queries
    and category labels of the training samples, the priority table only
    on the queries and priority labels.  Relabelling the priorities of a
    corpus leaves every category pattern list as it was, and conversely. *)
Theorem tables_built_independently : forall self self',
  (Forall2 (fun a b => query a = query b /\ category a = category b)
           (training_data self) (training_data self') ->
   category_patterns (build_patterns self)
   = category_patterns (build_patterns self')) /\
  (Forall2 (fun a b => query a = query b /\ priority a = priority b)
           (training_data self) (training_data self') ->
   priority_patterns (build_patterns self)
   = priority_patterns (build_patterns self')).
Proof.
  intros self self'. unfold build_patterns, count_all. split; intros H.
  - destruct H as [|a b data data' Hab H]; [reflexivity|].
    rewrite !count_all_split. cbn [category_patterns fst].
    f_equal. apply (count_loop_ext category category (a :: data) (b :: data')).
    now constructor.
  - destruct H as [|a b data data' Hab H]; [reflexivity|].
    rewrite !count_all_split. cbn [priority_patterns snd].
    f_equal. apply (count_loop_ext priority priority (a :: data) (b :: data')).
    now constructor.
Qed.

Lemma tables_built_independently_witness :
  category_patterns
    (build_patterns
       (mkService true [mkSample "printer printer jam" "Technical" "high"]
                  [] []))
  = category_patterns
      (build_patterns
         (mkService true [mkSample "printer printer jam" "Technical" "low"]
                    [] [])).
Proof.
  apply tables_built_independently.
  repeat constructor.
Defined.
